(** * The [mount_home_directory] pod mutator (pkg/mutation)

    A shallow embedding of [pkg/mutation/mount_home_directory.go]:
    [getServiceAccount], [initClient], [getConfigMap], [setUID] and
    [Mutate], together with the library functions they call
    ([strings.HasPrefix], [strings.Split], [strconv.ParseInt] and the
    generated [DeepCopy] of the Kubernetes API types).

    Go pointers are locations of a typed heap, so that the deep copy made by
    [Mutate] and the in-place assignment made by [setUID] are visible.
    Calls to the cluster and to the logger are recorded in a trace. *)

From Stdlib Require Import ZArith String Ascii List Lia Bool.
From stdpp Require Import base option list gmap strings.

Local Open Scope string_scope.
Local Open Scope Z_scope.

(** ** Bytes and strings

    A Go string is a sequence of bytes; [string] of the Standard Library is
    the same thing, one [ascii] per byte. *)

Module GoStrings.

Definition byte_val (c : ascii) : Z := Z.of_N (N_of_ascii c).

Definition len (s : string) : nat := String.length s.

(** [strings.HasPrefix]:
    [len(s) >= len(prefix) && s[:len(prefix)] == prefix]. *)
Definition HasPrefix (s prefix : string) : bool :=
  (len prefix <=? len s)%nat
  && String.eqb (substring 0 (len prefix) s) prefix.

(** [strings.IndexByte]: position of the first [c] in [s]. *)
Fixpoint IndexByte (s : string) (c : ascii) : option nat :=
  match s with
  | EmptyString => None
  | String a s' =>
      if Ascii.eqb a c then Some O
      else match IndexByte s' c with
           | Some i => Some (S i)
           | None => None
           end
  end.

(** [strings.Count] for a one-byte separator. *)
Fixpoint CountByte (s : string) (c : ascii) : nat :=
  match s with
  | EmptyString => O
  | String a s' => if Ascii.eqb a c then S (CountByte s' c) else CountByte s' c
  end.

(** The loop of [genSplit]: at most [n] cuts, the rest of the string is the
    last element. *)
Fixpoint genSplit_loop (n : nat) (s : string) (sep : ascii) : list string :=
  match n with
  | O => [s]
  | S n' =>
      match IndexByte s sep with
      | None => [s]
      | Some m =>
          substring 0 m s
            :: genSplit_loop n' (substring (m + 1) (len s - (m + 1)) s) sep
      end
  end.

(** [strings.Split(s, sep)] with a separator of one byte, which is how the
    mutator calls it: [genSplit(s, sep, 0, -1)] makes [Count(s, sep)] cuts. *)
Definition Split (s : string) (sep : ascii) : list string :=
  genSplit_loop (CountByte s sep) s sep.

(** [strings.Join(elems, sep)] with a separator of one byte: the first
    element, then the separator and the next element, for each of the
    others. It is what [Split] is the inverse of. *)
Fixpoint Join_rest (rest : list string) (sep : ascii) : string :=
  match rest with
  | [] => EmptyString
  | s :: rest' => String sep (s ++ Join_rest rest' sep)
  end.

Definition Join (elems : list string) (sep : ascii) : string :=
  match elems with
  | [] => EmptyString
  | e :: rest => e ++ Join_rest rest sep
  end.

End GoStrings.

(** ** [strconv.ParseInt(s, 10, 64)] *)

Module Strconv.
Import GoStrings.

Inductive NumErrKind := ErrSyntax | ErrRange.

(** [*strconv.NumError]. *)
Record NumError := mkNumError {
  Func : string;
  Num : string;
  Err : NumErrKind
}.

Definition syntaxError (fn str : string) : NumError := mkNumError fn str ErrSyntax.
Definition rangeError (fn str : string) : NumError := mkNumError fn str ErrRange.

Definition two64 : Z := 2 ^ 64.
Definition maxUint64 : Z := two64 - 1.

(** Arithmetic of [uint64] and the conversion [int64(_)]. *)
Definition wrap_u64 (z : Z) : Z := z mod two64.
Definition to_int64 (z : Z) : Z := (z + 2 ^ 63) mod two64 - 2 ^ 63.

(** [lower(c) = c | ('x' - 'X')]. *)
Definition lower (c : Z) : Z := Z.lor c 32.

Definition byte_0 : Z := 48.
Definition byte_9 : Z := 57.
Definition byte_a : Z := 97.
Definition byte_z : Z := 122.

(** The digit a byte stands for in [ParseUint]; [None] is the [default]
    branch of the switch (a syntax error). With [base = 10] the
    underscore case is never taken. *)
Definition digit_of (c : Z) : option Z :=
  if (byte_0 <=? c) && (c <=? byte_9) then Some (c - byte_0)
  else if (byte_a <=? lower c) && (lower c <=? byte_z)
       then Some ((lower c - byte_a + 10) mod 256)
       else None.

Definition cutoff10 : Z := maxUint64 / 10 + 1.

(** The loop of [ParseUint] for [base = 10], [bitSize = 64], over the bytes
    that are left, with the accumulator [n]. *)
Fixpoint ParseUint_loop (s0 : string) (n : Z) (cs : string)
  : Z * option NumError :=
  match cs with
  | EmptyString => (n, None)
  | String c cs' =>
      match digit_of (byte_val c) with
      | None => (0, Some (syntaxError "ParseUint" s0))
      | Some d =>
          if 10 <=? d then (0, Some (syntaxError "ParseUint" s0))
          else if cutoff10 <=? n then (maxUint64, Some (rangeError "ParseUint" s0))
          else
            let n' := wrap_u64 (n * 10) in
            let n1 := wrap_u64 (n' + d) in
            if (n1 <? n') || (maxUint64 <? n1)
            then (maxUint64, Some (rangeError "ParseUint" s0))
            else ParseUint_loop s0 n1 cs'
      end
  end.

Definition ParseUint (s : string) : Z * option NumError :=
  match s with
  | EmptyString => (0, Some (syntaxError "ParseUint" s))
  | _ => ParseUint_loop s 0 s
  end.

Definition plus_sign : ascii := "+"%char.
Definition minus_sign : ascii := "-"%char.

(** [strconv.ParseInt(s, 10, 64)]: the value and the error. *)
Definition ParseInt (s0 : string) : Z * option NumError :=
  match s0 with
  | EmptyString => (0, Some (syntaxError "ParseInt" s0))
  | String c rest =>
      let '(neg, s) :=
        if Ascii.eqb c plus_sign then (false, rest)
        else if Ascii.eqb c minus_sign then (true, rest)
        else (false, s0) in
      let '(un, err) := ParseUint s in
      match err with
      | Some (mkNumError _ _ ErrSyntax) => (0, Some (syntaxError "ParseInt" s0))
      | _ =>
          let cutoff := 2 ^ 63 in
          if negb neg && (cutoff <=? un)
          then (cutoff - 1, Some (rangeError "ParseInt" s0))
          else if neg && (cutoff <? un)
          then (to_int64 (- cutoff), Some (rangeError "ParseInt" s0))
          else
            let n := to_int64 un in
            (if neg then to_int64 (- n) else n, None)
      end
  end.

(** What a decimal 64-bit signed integer is, independently of the parser:
    an optional sign, then one or more decimal digits, whose value is
    between -2^63 and 2^63 - 1. *)
Definition is_decimal_digit (c : ascii) : bool :=
  (byte_0 <=? byte_val c) && (byte_val c <=? byte_9).

Fixpoint all_decimal (s : string) : bool :=
  match s with
  | EmptyString => true
  | String c s' => is_decimal_digit c && all_decimal s'
  end.

Fixpoint decimal_value (acc : Z) (s : string) : Z :=
  match s with
  | EmptyString => acc
  | String c s' => decimal_value (acc * 10 + (byte_val c - byte_0)) s'
  end.

Definition unsigned_decimal (s : string) : option Z :=
  match s with
  | EmptyString => None
  | _ => if all_decimal s then Some (decimal_value 0 s) else None
  end.

Definition decimal_int64 (s : string) : option Z :=
  match s with
  | EmptyString => None
  | String c rest =>
      let '(neg, digits) :=
        if Ascii.eqb c plus_sign then (false, rest)
        else if Ascii.eqb c minus_sign then (true, rest)
        else (false, s) in
      match unsigned_decimal digits with
      | None => None
      | Some v =>
          let n := if neg then - v else v in
          if (- 2 ^ 63 <=? n) && (n <? 2 ^ 63) then Some n else None
      end
  end.

(** *** Views of [ParseInt] used in the proofs *)

(** The two ways [ParseUint] fails. *)
Definition ParseUint_failure (s0 : string) (r : Z * option NumError) : Prop :=
  r = (0, Some (syntaxError "ParseUint" s0))
  \/ r = (maxUint64, Some (rangeError "ParseUint" s0)).

(** The sign and what follows it. *)
Definition strip_sign (c : ascii) (rest : string) : bool * string :=
  if Ascii.eqb c plus_sign then (false, rest)
  else if Ascii.eqb c minus_sign then (true, rest)
  else (false, String c rest).

(** After the sign is taken off: what [ParseInt] does with the result of
    [ParseUint]. *)
Definition ParseInt_finish (s0 : string) (neg : bool) (r : Z * option NumError)
  : Z * option NumError :=
  let '(un, err) := r in
  match err with
  | Some (mkNumError _ _ ErrSyntax) => (0, Some (syntaxError "ParseInt" s0))
  | _ =>
      let cutoff := 2 ^ 63 in
      if negb neg && (cutoff <=? un)
      then (cutoff - 1, Some (rangeError "ParseInt" s0))
      else if neg && (cutoff <? un)
      then (to_int64 (- cutoff), Some (rangeError "ParseInt" s0))
      else
        let n := to_int64 un in
        (if neg then to_int64 (- n) else n, None)
  end.

End Strconv.

Import GoStrings Strconv.

(** ** Errors, the cluster and the trace *)

(** The errors of the package are built by [fmt.Errorf] from a formatted
    message. The model keeps which statement built the error and the cause
    it was formatted from, not the rendered text. *)
Inductive error :=
| ExternalError (msg : string)
    (* an error value handed back by the [rest] or [kubernetes] packages *)
| ErrInClusterConfig (cause : error)
    (* initClient: "Error getting in-cluster config: %s" *)
| ErrNewForConfig (cause : error)
    (* initClient: "Error starting Kubernetes client from config: %s" *)
| ErrGetConfigMap (cause : error)
    (* getConfigMap: "Error getting ConfigMap: %s" *)
| ErrInitClient (cause : error)
    (* setUID: "Failed initializing Kubernetes client: %s" *)
| ErrSetUID (cause : error)
    (* setUID: "Failed setting UID: %s" *)
| ErrNoUID
    (* setUID: "ServiceAccount %s has no UID associated with it" *)
| ErrConvertUID (cause : NumError)
    (* setUID: "Failed to convert UID to int64: %s" *)
| ErrSetRunAsUser (cause : error)
    (* Mutate: "Failed to set RunAsUser: %s" *).

(** [corev1.ConfigMap], of which only [Data] is read. A nil Go map reads
    like the empty one. *)
Record ConfigMap := mkConfigMap { Data : gmap string string }.

(** What the cluster answers to the three calls the package makes. Each is
    made at most once for one call of [Mutate]. [Some msg] and [inl msg] are
    errors. *)
Record cluster := mkCluster {
  InClusterConfig : option string;
  NewForConfig : option string;
  ConfigMapsGet : string -> string -> string + ConfigMap
}.

Inductive event :=
| LogInfo (mutation : string) (msg : string)
| CallInClusterConfig
| CallNewForConfig
| CallConfigMapsGet (ns name : string)
| ReadData (key : string).

(** An event that reaches the mapping store: building the client, fetching
    the ConfigMap, reading a key of its data. *)
Definition store_event (e : event) : bool :=
  match e with
  | LogInfo _ _ => false
  | _ => true
  end.

Definition no_store_access (t : list event) : Prop :=
  forallb (fun e => negb (store_event e)) t = true.

(** [admissionv1.AdmissionRequest], of which only [UserInfo.Username] is
    read. *)
Record UserInfo := mkUserInfo { Username : string }.
Record AdmissionRequest := mkAdmissionRequest { UserInfo_ : UserInfo }.

Definition configMapName : string := "uid-mapping".
Definition namespace : string := "default".

(** A pointer is nil ([None]) or a location of the heap. *)
Abbreviation loc := nat.

(** A computation returns a value or panics (nil pointer dereference). *)
Inductive result (A : Type) :=
| Ret (a : A)
| Panic.
Arguments Ret {A} a.
Arguments Panic {A}.

Section Mutation.

(** The fields of [corev1.Pod] (and of its [Spec]) and of
    [corev1.PodSecurityContext] that the package never reads or writes. *)
Variables PodFields SCFields : Type.

Record PodSecurityContext := mkPodSecurityContext {
  RunAsUser : option loc;            (* *int64 *)
  scFields : SCFields
}.

Record PodSpec := mkPodSpec {
  SecurityContext : option loc       (* *PodSecurityContext *)
}.

Record Pod := mkPod {
  Spec : PodSpec;
  podFields : PodFields
}.

(** The heap, one region per pointed-to type, and the trace of calls. A
    location is an index; [new] appends. *)
Record state := mkState {
  pods : list Pod;
  secctxs : list PodSecurityContext;
  int64s : list Z;
  trace : list event
}.

Definition M (A : Type) : Type := state -> result A * state.

Definition ret {A} (a : A) : M A := fun st => (Ret a, st).
Definition panic {A} : M A := fun st => (Panic, st).
Definition bind {A B} (m : M A) (k : A -> M B) : M B :=
  fun st =>
    match m st with
    | (Ret a, st') => k a st'
    | (Panic, st') => (Panic, st')
    end.

Local Notation "'let!' x ':=' m 'in' k" := (bind m (fun x => k))
  (at level 10, x pattern, m at level 100, k at level 200).
Local Notation "m ';;' k" := (bind m (fun _ => k))
  (at level 100, k at level 200, right associativity).

Definition emit (e : event) : M unit :=
  fun st => (Ret tt, mkState (pods st) (secctxs st) (int64s st) (trace st ++ [e])).

(** Dereferences. A pointer that is nil, or that points outside the heap,
    panics; the second never happens on a heap built by Go. *)
Definition load_pod (p : option loc) : M Pod :=
  fun st =>
    match p with
    | None => (Panic, st)
    | Some l => match pods st !! l with
                | Some v => (Ret v, st)
                | None => (Panic, st)
                end
    end.

Definition load_sc (p : option loc) : M PodSecurityContext :=
  fun st =>
    match p with
    | None => (Panic, st)
    | Some l => match secctxs st !! l with
                | Some v => (Ret v, st)
                | None => (Panic, st)
                end
    end.

Definition load_int64 (p : option loc) : M Z :=
  fun st =>
    match p with
    | None => (Panic, st)
    | Some l => match int64s st !! l with
                | Some v => (Ret v, st)
                | None => (Panic, st)
                end
    end.

Definition store_pod (p : option loc) (v : Pod) : M unit :=
  fun st =>
    match p with
    | None => (Panic, st)
    | Some l => match pods st !! l with
                | Some _ => (Ret tt, mkState (<[l:=v]> (pods st)) (secctxs st) (int64s st) (trace st))
                | None => (Panic, st)
                end
    end.

Definition store_sc (p : option loc) (v : PodSecurityContext) : M unit :=
  fun st =>
    match p with
    | None => (Panic, st)
    | Some l => match secctxs st !! l with
                | Some _ => (Ret tt, mkState (pods st) (<[l:=v]> (secctxs st)) (int64s st) (trace st))
                | None => (Panic, st)
                end
    end.

Definition new_pod (v : Pod) : M (option loc) :=
  fun st => (Ret (Some (length (pods st))),
             mkState (pods st ++ [v]) (secctxs st) (int64s st) (trace st)).

Definition new_sc (v : PodSecurityContext) : M (option loc) :=
  fun st => (Ret (Some (length (secctxs st))),
             mkState (pods st) (secctxs st ++ [v]) (int64s st) (trace st)).

Definition new_int64 (v : Z) : M (option loc) :=
  fun st => (Ret (Some (length (int64s st))),
             mkState (pods st) (secctxs st) (int64s st ++ [v]) (trace st)).

(** ** The generated deep copies

    [DeepCopy] returns nil on nil; otherwise it allocates the copy and
    copies every pointer field in turn. The copies of the inner objects are
    made before the outer object is stored, which Go cannot tell from the
    generated order. *)

(** [if in.RunAsUser != nil { *out = new(int64); **out = **in }] *)
Definition DeepCopy_int64 (p : option loc) : M (option loc) :=
  match p with
  | None => ret None
  | Some _ => let! v := load_int64 p in new_int64 v
  end.

Definition PodSecurityContext_DeepCopy (p : option loc) : M (option loc) :=
  match p with
  | None => ret None
  | Some _ =>
      let! sc := load_sc p in
      let! u := DeepCopy_int64 (RunAsUser sc) in
      new_sc (mkPodSecurityContext u (scFields sc))
  end.

Definition Pod_DeepCopy (p : option loc) : M (option loc) :=
  match p with
  | None => ret None
  | Some _ =>
      let! pd := load_pod p in
      let! sc := PodSecurityContext_DeepCopy (SecurityContext (Spec pd)) in
      new_pod (mkPod (mkPodSpec sc) (podFields pd))
  end.

(** ** The mutator *)

(** [mhd.Name()] *)
Definition Name : string := "mount_home_directory".

Definition colon : ascii := ":"%char.

(** [getServiceAccount]: the fourth segment of a user name
    [system:serviceaccount:<namespace>:<name>], the empty string
    otherwise. *)
Definition getServiceAccount (request : option AdmissionRequest) : M string :=
  match request with
  | None => panic
  | Some r =>
      let userInfo := UserInfo_ r in
      if negb (String.eqb (Username userInfo) "")
         && HasPrefix (Username userInfo) "system:serviceaccount:"
      then
        match Split (Username userInfo) colon with
        | [_; _; namespace; serviceAccountName] =>
            emit (LogInfo Name ("Request made by ServiceAccount: " ++ serviceAccountName
                                ++ " in namespace: " ++ namespace)) ;;
            ret serviceAccountName
        | _ => ret ""
        end
      else ret ""
  end.

(** [initClient]: the client, or the error. The client itself carries
    nothing the model needs. *)
Definition initClient (k : cluster) : M (option unit * option error) :=
  emit CallInClusterConfig ;;
  match InClusterConfig k with
  | Some msg => ret (None, Some (ErrInClusterConfig (ExternalError msg)))
  | None =>
      emit CallNewForConfig ;;
      match NewForConfig k with
      | Some msg => ret (None, Some (ErrNewForConfig (ExternalError msg)))
      | None => ret (Some tt, None)
      end
  end.

(** [getConfigMap] *)
Definition getConfigMap (k : cluster) (client : option unit)
  : M (option ConfigMap * option error) :=
  emit (CallConfigMapsGet namespace configMapName) ;;
  match ConfigMapsGet k namespace configMapName with
  | inl msg => ret (None, Some (ErrGetConfigMap (ExternalError msg)))
  | inr cm => ret (Some cm, None)
  end.

(** [data[key]]: the value, or the empty string when the key is absent. *)
Definition read_data (data : gmap string string) (key : string) : M string :=
  emit (ReadData key) ;;
  ret (default "" (data !! key)).

(** [setUID] *)
Definition setUID (k : cluster) (existing : option loc) (serviceAccount : string)
  : M (option loc * option error) :=
  let! (client, err) := initClient k in
  match err with
  | Some e => ret (None, Some (ErrInitClient e))
  | None =>
      let! (configMap, err) := getConfigMap k client in
      match err, configMap with
      | Some e, _ => ret (None, Some (ErrSetUID e))
      | None, None => panic
      | None, Some cm =>
          let data := Data cm in
          let! uid := read_data data serviceAccount in
          if String.eqb uid ""
          then ret (None, Some ErrNoUID)
          else
            emit (LogInfo Name ("ServiceAccount " ++ serviceAccount ++ " has UID "
                                ++ uid ++ " associated with it")) ;;
            let! raw := read_data data serviceAccount in
            let '(uid64, err) := ParseInt raw in
            match err with
            | Some e => ret (None, Some (ErrConvertUID e))
            | None =>
                let! p := new_int64 uid64 in
                let! sc := load_sc existing in
                store_sc existing (mkPodSecurityContext p (scFields sc)) ;;
                ret (existing, None)
            end
      end
  end.

(** [securityContext == nil || securityContext.RunAsUser == nil] *)
Definition noRunAsUser (securityContext : option loc) : M bool :=
  match securityContext with
  | None => ret true
  | Some _ =>
      let! sc := load_sc securityContext in
      ret (bool_decide (RunAsUser sc = None))
  end.

(** [Mutate]. The [Logger] of the mutator is taken to be set. *)
Definition Mutate (k : cluster) (pod : option loc) (a : option AdmissionRequest)
  : M (option loc * option error) :=
  let! mpod := Pod_DeepCopy pod in
  let! pd := load_pod pod in
  let securityContext := SecurityContext (Spec pd) in
  let! serviceAccount := getServiceAccount a in
  let! unset := noRunAsUser securityContext in
  if unset
  then
    if negb (String.eqb serviceAccount "")
    then
      emit (LogInfo Name
              ("No runAsUser rule found, applying default for current ServiceAccount "
               ++ serviceAccount)) ;;
      let! mpd := load_pod mpod in
      let! (sc, err) := setUID k (SecurityContext (Spec mpd)) serviceAccount in
      let! mpd' := load_pod mpod in
      store_pod mpod (mkPod (mkPodSpec sc) (podFields mpd')) ;;
      match err with
      | Some e => ret (None, Some (ErrSetRunAsUser e))
      | None => ret (mpod, None)
      end
    else ret (mpod, None)
  else ret (mpod, None).

(** ** Reading a Pod off the heap *)

Record SecurityContextValue := mkSCV {
  runAsUser : option Z;
  sc_fields : SCFields
}.

Record PodValue := mkPV {
  securityContext : option SecurityContextValue;
  pod_fields : PodFields
}.

Definition int64_value (st : state) (p : option loc) : option (option Z) :=
  match p with
  | None => Some None
  | Some l => match int64s st !! l with
              | Some z => Some (Some z)
              | None => None
              end
  end.

Definition sc_value (st : state) (p : option loc)
  : option (option SecurityContextValue) :=
  match p with
  | None => Some None
  | Some l =>
      match secctxs st !! l with
      | None => None
      | Some sc =>
          match int64_value st (RunAsUser sc) with
          | None => None
          | Some u => Some (Some (mkSCV u (scFields sc)))
          end
      end
  end.

(** The Pod at [l], with everything it points to; [None] when a pointer
    leaves the heap. *)
Definition pod_value (st : state) (l : loc) : option PodValue :=
  match pods st !! l with
  | None => None
  | Some pd =>
      match sc_value st (SecurityContext (Spec pd)) with
      | None => None
      | Some sc => Some (mkPV sc (podFields pd))
      end
  end.

(** The [RunAsUser] of a Pod value: [None] when the security context or the
    field is nil. *)
Definition runAsUser_of (v : PodValue) : option Z :=
  match securityContext v with
  | None => None
  | Some sc => runAsUser sc
  end.

(** Every object of [st] is still there, unchanged, in [st']. *)
Definition preserved (st st' : state) : Prop :=
  pods st `prefix_of` pods st'
  /\ secctxs st `prefix_of` secctxs st'
  /\ int64s st `prefix_of` int64s st'.

(** The state with more events in its trace. *)
Definition logged (st : state) (t : list event) : state :=
  mkState (pods st) (secctxs st) (int64s st) (trace st ++ t).

Definition empty_state : state := mkState [] [] [] [].

End Mutation.

Arguments mkPodSecurityContext {SCFields} _ _.
Arguments RunAsUser {SCFields} _.
Arguments scFields {SCFields} _.
Arguments mkPod {PodFields} _ _.
Arguments Spec {PodFields} _.
Arguments podFields {PodFields} _.
Arguments mkState {PodFields SCFields} _ _ _ _.
Arguments pods {PodFields SCFields} _.
Arguments secctxs {PodFields SCFields} _.
Arguments int64s {PodFields SCFields} _.
Arguments trace {PodFields SCFields} _.
Arguments ret {PodFields SCFields A} _ _.
Arguments panic {PodFields SCFields A} _.
Arguments bind {PodFields SCFields A B} _ _ _.
Arguments emit {PodFields SCFields} _ _.
Arguments load_pod {PodFields SCFields} _ _.
Arguments load_sc {PodFields SCFields} _ _.
Arguments load_int64 {PodFields SCFields} _ _.
Arguments store_pod {PodFields SCFields} _ _ _.
Arguments store_sc {PodFields SCFields} _ _ _.
Arguments new_pod {PodFields SCFields} _ _.
Arguments new_sc {PodFields SCFields} _ _.
Arguments new_int64 {PodFields SCFields} _ _.
Arguments DeepCopy_int64 {PodFields SCFields} _ _.
Arguments PodSecurityContext_DeepCopy {PodFields SCFields} _ _.
Arguments Pod_DeepCopy {PodFields SCFields} _ _.
Arguments getServiceAccount {PodFields SCFields} _ _.
Arguments initClient {PodFields SCFields} _ _.
Arguments getConfigMap {PodFields SCFields} _ _ _.
Arguments read_data {PodFields SCFields} _ _ _.
Arguments setUID {PodFields SCFields} _ _ _ _.
Arguments noRunAsUser {PodFields SCFields} _ _.
Arguments Mutate {PodFields SCFields} _ _ _ _.
Arguments mkSCV {SCFields} _ _.
Arguments runAsUser {SCFields} _.
Arguments sc_fields {SCFields} _.
Arguments mkPV {PodFields SCFields} _ _.
Arguments securityContext {PodFields SCFields} _.
Arguments pod_fields {PodFields SCFields} _.
Arguments int64_value {PodFields SCFields} _ _.
Arguments sc_value {PodFields SCFields} _ _.
Arguments pod_value {PodFields SCFields} _ _.
Arguments runAsUser_of {PodFields SCFields} _.
Arguments preserved {PodFields SCFields} _ _.
Arguments logged {PodFields SCFields} _ _.
Arguments empty_state {PodFields SCFields}.

Notation "'let!' x ':=' m 'in' k" := (bind m (fun x => k))
  (at level 10, x pattern, m at level 100, k at level 200).
Notation "m ';;' k" := (bind m (fun _ => k))
  (at level 100, k at level 200, right associativity).

(** The name [getServiceAccount] returns for a request, and what it logs. *)
Definition extracted (a : AdmissionRequest) : string :=
  match fst (getServiceAccount (PodFields := unit) (SCFields := unit) (Some a) empty_state) with
  | Ret name => name
  | Panic => ""
  end.

Definition extraction_log (a : AdmissionRequest) : list event :=
  trace (snd (getServiceAccount (PodFields := unit) (SCFields := unit) (Some a) empty_state)).

(** The error with which [setUID] fails for a name, if it does, and the
    calls it makes. With a nil [existing] the run stops at the assignment
    of the last line. *)
Definition resolution_error (k : cluster) (serviceAccount : string) : option error :=
  match fst (setUID (PodFields := unit) (SCFields := unit) k None serviceAccount empty_state) with
  | Ret (_, Some e) => Some e
  | _ => None
  end.

Definition resolution_log (k : cluster) (serviceAccount : string) : list event :=
  trace (snd (setUID (PodFields := unit) (SCFields := unit) k None serviceAccount empty_state)).

(** The user name of a ServiceAccount, [system:serviceaccount:<ns>:<name>]. *)
Definition serviceaccount_username (ns name : string) : string :=
  "system:serviceaccount:" ++ ns ++ ":" ++ name.

(** The mapping store answers every call and maps [serviceAccount] to a text
    that [strconv.ParseInt] reads as [n]. *)
Definition resolves (k : cluster) (serviceAccount : string) (n : Z) : Prop :=
  InClusterConfig k = None
  /\ NewForConfig k = None
  /\ exists cm raw,
       ConfigMapsGet k namespace configMapName = inr cm
       /\ Data cm !! serviceAccount = Some raw
       /\ raw <> ""
       /\ ParseInt raw = (n, None).

(** The mapping store answers, and its data is [data]. *)
Definition store_data (k : cluster) (data : gmap string string) : Prop :=
  InClusterConfig k = None
  /\ NewForConfig k = None
  /\ exists cm, ConfigMapsGet k namespace configMapName = inr cm /\ Data cm = data.

(** ** States and outcomes of the runs *)

Section Views.

Context {PodFields SCFields : Type}.
Local Abbreviation state := (state PodFields SCFields).
Local Abbreviation PodValue := (PodValue PodFields SCFields).

Implicit Types (st : state) (k : cluster) (a : AdmissionRequest) (t : list event).

(** The last three statements of [setUID], once the value is parsed. *)
Definition assign_uid (existing : option loc) (uid64 : Z)
  : M PodFields SCFields (option loc * option error) :=
  let! p := new_int64 uid64 in
  let! sc := load_sc existing in
  store_sc existing (mkPodSecurityContext p (scFields sc)) ;;
  ret (existing, None).

(** The state after [pod.DeepCopy()] of a Pod whose value is [v]: the copy
    is the last Pod of the heap, with a security context and a [RunAsUser]
    of its own when the original has them. *)
Definition copy_state st (v : PodValue) : state :=
  match securityContext v with
  | None =>
      mkState (pods st ++ [mkPod (mkPodSpec None) (pod_fields v)])
        (secctxs st) (int64s st) (trace st)
  | Some scv =>
      match runAsUser scv with
      | None =>
          mkState
            (pods st ++ [mkPod (mkPodSpec (Some (length (secctxs st)))) (pod_fields v)])
            (secctxs st ++ [mkPodSecurityContext None (sc_fields scv)])
            (int64s st) (trace st)
      | Some z =>
          mkState
            (pods st ++ [mkPod (mkPodSpec (Some (length (secctxs st)))) (pod_fields v)])
            (secctxs st ++ [mkPodSecurityContext (Some (length (int64s st))) (sc_fields scv)])
            (int64s st ++ [z]) (trace st)
      end
  end.

(** The security context of the copy. *)
Definition copy_sc st (v : PodValue) : option loc :=
  match securityContext v with
  | None => None
  | Some _ => Some (length (secctxs st))
  end.

(** What is logged up to the call of [setUID], and up to its end. *)
Definition decision_log a : list event :=
  (extraction_log a
   ++ [LogInfo Name
         ("No runAsUser rule found, applying default for current ServiceAccount "
          ++ extracted a)])%list.

Definition resolution_trace k a : list event :=
  (decision_log a ++ resolution_log k (extracted a))%list.

(** The state in which [Mutate] returns an error: the copy has lost its
    security context, and nothing else has changed. *)
Definition failed_state k a st (v : PodValue) : state :=
  mkState (pods st ++ [mkPod (mkPodSpec None) (pod_fields v)])
    (secctxs (copy_state st v)) (int64s (copy_state st v))
    (trace st ++ resolution_trace k a).

(** The state in which [Mutate] returns the mutated copy. *)
Definition applied_state k a st (v : PodValue) (sf : SCFields) (n : Z) : state :=
  mkState
    (pods st ++ [mkPod (mkPodSpec (Some (length (secctxs st)))) (pod_fields v)])
    (secctxs st ++ [mkPodSecurityContext (Some (length (int64s st))) sf])
    (int64s st ++ [n])
    (trace st ++ resolution_trace k a).

(** What "the Pod comes back unchanged, and the mapping store was left
    alone" means for a run from [st] on the Pod at [p]. *)
Definition returns_unchanged (out : result (option loc * option error) * state)
    st (p : loc) (v : PodValue) : Prop :=
  exists p' t,
    fst out = Ret (Some p', None)
    /\ pod_value (snd out) p' = Some v
    /\ pod_value (snd out) p = Some v
    /\ trace (snd out) = (trace st ++ t)%list
    /\ no_store_access t.

(** How a run of [Mutate] ends. *)
Inductive outcome k (pod : option loc) (a : option AdmissionRequest) st
  : result (option loc * option error) * state -> Prop :=
| outcome_panic st' :
    preserved st st' -> outcome k pod a st (Panic, st')
| outcome_unchanged (p : loc) (v : PodValue) a' :
    pod = Some p -> a = Some a' -> pod_value st p = Some v ->
    runAsUser_of v <> None \/ extracted a' = "" ->
    outcome k pod a st
      (Ret (Some (length (pods st)), None),
       logged (copy_state st v) (extraction_log a'))
| outcome_failed (p : loc) (v : PodValue) a' (e : error) :
    pod = Some p -> a = Some a' -> pod_value st p = Some v ->
    runAsUser_of v = None -> extracted a' <> "" ->
    resolution_error k (extracted a') = Some e ->
    outcome k pod a st
      (Ret (None, Some (ErrSetRunAsUser e)), failed_state k a' st v)
| outcome_applied (p : loc) (v : PodValue) a' (sf : SCFields) (n : Z) :
    pod = Some p -> a = Some a' -> pod_value st p = Some v ->
    securityContext v = Some (mkSCV None sf) -> extracted a' <> "" ->
    resolves k (extracted a') n ->
    outcome k pod a st
      (Ret (Some (length (pods st)), None), applied_state k a' st v sf n).

(** The calls [setUID] can make, in the order of the source. *)
Definition setUID_script (serviceAccount uid : string) : list event :=
  [CallInClusterConfig; CallNewForConfig;
   CallConfigMapsGet namespace configMapName;
   ReadData serviceAccount;
   LogInfo Name ("ServiceAccount " ++ serviceAccount ++ " has UID " ++ uid
                 ++ " associated with it");
   ReadData serviceAccount].

End Views.

(** ** Sample clusters, requests and heaps *)

Module Samples.

(** A cluster that answers every call and holds [data] in the ConfigMap
    [uid-mapping] of the namespace [default]. *)
Definition cluster_with (data : gmap string string) : cluster :=
  mkCluster None None
    (fun ns name =>
       if String.eqb ns namespace && String.eqb name configMapName
       then inr (mkConfigMap data)
       else inl "configmaps not found").

Definition request_from (username : string) : AdmissionRequest :=
  mkAdmissionRequest (mkUserInfo username).

Definition build_bot : AdmissionRequest :=
  request_from "system:serviceaccount:default:build-bot".

Definition build_bot_mapping : gmap string string := {[ "build-bot" := "1001" ]}.

(** A heap with one Pod: without a security context, with an empty
    security context, with a [RunAsUser] of 500. *)
Definition pod_without_context : state unit unit :=
  mkState [mkPod (mkPodSpec None) tt] [] [] [].

Definition pod_with_empty_context : state unit unit :=
  mkState [mkPod (mkPodSpec (Some O)) tt] [mkPodSecurityContext None tt] [] [].

Definition pod_with_uid : state unit unit :=
  mkState [mkPod (mkPodSpec (Some O)) tt] [mkPodSecurityContext (Some O) tt] [500] [].

Definition empty_context_value : PodValue unit unit :=
  mkPV (Some (mkSCV None tt)) tt.

Definition uid_value : PodValue unit unit :=
  mkPV (Some (mkSCV (Some 500) tt)) tt.

End Samples.

Import Samples.

(** ** The library functions on sample inputs *)

Example ParseInt_1001 : ParseInt "1001" = (1001, None).
Proof. reflexivity. Qed.

Example ParseInt_plus : ParseInt "+7" = (7, None).
Proof. reflexivity. Qed.

Example ParseInt_min_int64 :
  ParseInt "-9223372036854775808" = (-9223372036854775808, None).
Proof. vm_compute. reflexivity. Qed.

Example ParseInt_above_max_int64 :
  ParseInt "9223372036854775808"
  = (9223372036854775807, Some (rangeError "ParseInt" "9223372036854775808")).
Proof. vm_compute. reflexivity. Qed.

Example ParseInt_not_a_number :
  ParseInt "not-a-number" = (0, Some (syntaxError "ParseInt" "not-a-number")).
Proof. vm_compute. reflexivity. Qed.

Example ParseInt_underscore : snd (ParseInt "1_000") = Some (syntaxError "ParseInt" "1_000").
Proof. vm_compute. reflexivity. Qed.

Example Split_build_bot :
  Split "system:serviceaccount:default:build-bot" colon
  = ["system"; "serviceaccount"; "default"; "build-bot"].
Proof. vm_compute. reflexivity. Qed.

Example Split_empty_segments : Split "a::b:" colon = ["a"; ""; "b"; ""].
Proof. vm_compute. reflexivity. Qed.

Example extracted_build_bot : extracted build_bot = "build-bot".
Proof. vm_compute. reflexivity. Qed.

Example extracted_five_segments :
  extracted (request_from "system:serviceaccount:default:build:bot") = "".
Proof. vm_compute. reflexivity. Qed.

Example extracted_node : extracted (request_from "system:node:worker-1") = "".
Proof. vm_compute. reflexivity. Qed.

(** ** [strconv.ParseInt] against the definition of a decimal [int64] *)

Module StrconvFacts.

Lemma two64_val : two64 = 18446744073709551616.
Proof. reflexivity. Qed.

Lemma cutoff10_val : cutoff10 = 1844674407370955162.
Proof. reflexivity. Qed.

Lemma maxUint64_val : maxUint64 = 18446744073709551615.
Proof. reflexivity. Qed.

Lemma digit_of_decimal (c : ascii) :
  is_decimal_digit c = true ->
  digit_of (byte_val c) = Some (byte_val c - byte_0)
  /\ 0 <= byte_val c - byte_0 <= 9.
Proof.
  unfold is_decimal_digit, digit_of. intros H. rewrite H.
  apply andb_true_iff in H as [H1 H2].
  apply Z.leb_le in H1, H2. unfold byte_0, byte_9 in *. split; [reflexivity | lia].
Qed.

Lemma digit_of_other (c : ascii) :
  is_decimal_digit c = false ->
  match digit_of (byte_val c) with
  | Some d => 10 <= d
  | None => True
  end.
Proof.
  destruct c as [[] [] [] [] [] [] [] []]; vm_compute; intros H;
    try discriminate H; try exact I; try (intros E; discriminate E).
Qed.

Lemma decimal_value_ge (cs : string) : forall n,
  0 <= n -> all_decimal cs = true -> n <= decimal_value n cs.
Proof.
  induction cs as [|c cs IH]; intros n Hn Hall; simpl in *; [lia|].
  apply andb_true_iff in Hall as [Hc Hall].
  destruct (digit_of_decimal c Hc) as [_ Hd].
  specialize (IH (n * 10 + (byte_val c - byte_0)) ltac:(lia) Hall). lia.
Qed.

(** One turn of the loop on a digit [d], from an accumulator below
    2^64: either the next accumulator is [n * 10 + d], or that number does
    not fit in 64 bits and the loop stops with a range error. *)
Lemma ParseUint_step (n d : Z) :
  0 <= n < two64 -> 0 <= d <= 9 ->
  (n * 10 + d < two64 ->
     (cutoff10 <=? n) = false
     /\ wrap_u64 (wrap_u64 (n * 10) + d) = n * 10 + d
     /\ ((wrap_u64 (wrap_u64 (n * 10) + d) <? wrap_u64 (n * 10))
         || (maxUint64 <? wrap_u64 (wrap_u64 (n * 10) + d))) = false)
  /\ (two64 <= n * 10 + d ->
     (cutoff10 <=? n) = true
     \/ ((wrap_u64 (wrap_u64 (n * 10) + d) <? wrap_u64 (n * 10))
         || (maxUint64 <? wrap_u64 (wrap_u64 (n * 10) + d))) = true).
Proof.
  unfold wrap_u64. rewrite two64_val, cutoff10_val, maxUint64_val.
  intros Hn Hd. split; intros H.
  - assert (E1 : (n * 10) mod 18446744073709551616 = n * 10)
      by (apply Z.mod_small; lia).
    rewrite E1.
    assert (E2 : (n * 10 + d) mod 18446744073709551616 = n * 10 + d)
      by (apply Z.mod_small; lia).
    rewrite E2. repeat split.
    + apply Z.leb_gt. lia.
    + apply orb_false_iff. split; [apply Z.ltb_ge | apply Z.ltb_ge]; lia.
  - destruct (Z.leb_spec 1844674407370955162 n) as [Hc|Hc]; [left; reflexivity|].
    right.
    assert (E1 : (n * 10) mod 18446744073709551616 = n * 10)
      by (apply Z.mod_small; lia).
    rewrite E1.
    assert (E2 : (n * 10 + d) mod 18446744073709551616
                 = n * 10 + d - 18446744073709551616).
    { symmetry. apply Z.mod_unique with (q := 1); lia. }
    rewrite E2. apply orb_true_iff. left. apply Z.ltb_lt. lia.
Qed.

Lemma ParseUint_loop_value (s0 cs : string) : forall n,
  0 <= n < two64 -> all_decimal cs = true -> decimal_value n cs < two64 ->
  ParseUint_loop s0 n cs = (decimal_value n cs, None).
Proof.
  induction cs as [|c cs IH]; intros n Hn Hall Hv; simpl in *; [reflexivity|].
  apply andb_true_iff in Hall as [Hc Hall].
  destruct (digit_of_decimal c Hc) as [-> Hd].
  set (d := byte_val c - byte_0) in *.
  assert (Hle := decimal_value_ge cs (n * 10 + d) ltac:(lia) Hall).
  destruct (ParseUint_step n d Hn Hd) as [Hok _].
  destruct (Hok ltac:(lia)) as (E1 & E2 & E3).
  replace (10 <=? d) with false by (symmetry; apply Z.leb_gt; lia).
  rewrite E1, E3, E2. apply IH; [lia | assumption | assumption].
Qed.

Lemma ParseUint_loop_range (s0 cs : string) : forall n,
  0 <= n < two64 -> all_decimal cs = true -> two64 <= decimal_value n cs ->
  ParseUint_loop s0 n cs = (maxUint64, Some (rangeError "ParseUint" s0)).
Proof.
  induction cs as [|c cs IH]; intros n Hn Hall Hv; simpl in *; [lia|].
  apply andb_true_iff in Hall as [Hc Hall].
  destruct (digit_of_decimal c Hc) as [-> Hd].
  set (d := byte_val c - byte_0) in *.
  destruct (ParseUint_step n d Hn Hd) as [Hok Hbad].
  replace (10 <=? d) with false by (symmetry; apply Z.leb_gt; lia).
  destruct (Z.lt_ge_cases (n * 10 + d) two64) as [Hlt|Hge].
  - destruct (Hok Hlt) as (E1 & E2 & E3). rewrite E1, E3, E2.
    apply IH; [lia | assumption | assumption].
  - destruct (Hbad Hge) as [E|E].
    + rewrite E. reflexivity.
    + destruct (cutoff10 <=? n); [reflexivity|]. rewrite E. reflexivity.
Qed.

Lemma ParseUint_loop_error (s0 cs : string) : forall n,
  all_decimal cs = false ->
  ParseUint_failure s0 (ParseUint_loop s0 n cs).
Proof.
  unfold ParseUint_failure.
  induction cs as [|c cs IH]; intros n Hall; simpl in *; [discriminate|].
  destruct (is_decimal_digit c) eqn:Hc.
  - simpl in Hall. destruct (digit_of_decimal c Hc) as [-> Hd].
    replace (10 <=? byte_val c - byte_0) with false
      by (symmetry; apply Z.leb_gt; lia).
    destruct (cutoff10 <=? n); [right; reflexivity|].
    destruct (_ || _); [right; reflexivity|]. apply IH, Hall.
  - pose proof (digit_of_other c Hc) as Hd.
    destruct (digit_of (byte_val c)) as [d|]; [|left; reflexivity].
    replace (10 <=? d) with true by (symmetry; apply Z.leb_le; lia).
    left; reflexivity.
Qed.

(** [ParseUint] on a string of digits: the value when it fits in 64 bits, a
    range error with [maxUint64] otherwise. *)
Lemma ParseUint_digits (s : string) (v : Z) :
  unsigned_decimal s = Some v ->
  0 <= v
  /\ (v < two64 -> ParseUint s = (v, None))
  /\ (two64 <= v -> ParseUint s = (maxUint64, Some (rangeError "ParseUint" s))).
Proof.
  unfold unsigned_decimal, ParseUint. destruct s as [|c s]; [discriminate|].
  destruct (all_decimal (String c s)) eqn:Hall; [|discriminate].
  intros E. injection E as E. subst v.
  assert (H0 : 0 <= 0 < two64) by (rewrite two64_val; lia).
  split; [apply (decimal_value_ge (String c s) 0); [lia | assumption]|].
  split; intros H.
  - exact (ParseUint_loop_value (String c s) (String c s) 0 H0 Hall H).
  - exact (ParseUint_loop_range (String c s) (String c s) 0 H0 Hall H).
Qed.

Lemma ParseUint_not_digits (s : string) :
  unsigned_decimal s = None -> ParseUint_failure s (ParseUint s).
Proof.
  unfold unsigned_decimal, ParseUint. destruct s as [|c s].
  - intros _. left. reflexivity.
  - destruct (all_decimal (String c s)) eqn:Hall; [discriminate|].
    intros _. exact (ParseUint_loop_error (String c s) (String c s) 0 Hall).
Qed.

Lemma ParseInt_unfold (c : ascii) (rest : string) :
  ParseInt (String c rest)
  = ParseInt_finish (String c rest) (fst (strip_sign c rest))
      (ParseUint (snd (strip_sign c rest))).
Proof.
  unfold ParseInt, ParseInt_finish, strip_sign.
  destruct (Ascii.eqb c plus_sign); [reflexivity|].
  destruct (Ascii.eqb c minus_sign); reflexivity.
Qed.

Lemma decimal_int64_unfold (c : ascii) (rest : string) :
  decimal_int64 (String c rest)
  = match unsigned_decimal (snd (strip_sign c rest)) with
    | None => None
    | Some v =>
        let n := if fst (strip_sign c rest) then - v else v in
        if (- 2 ^ 63 <=? n) && (n <? 2 ^ 63) then Some n else None
    end.
Proof.
  unfold decimal_int64, strip_sign.
  destruct (Ascii.eqb c plus_sign); [reflexivity|].
  destruct (Ascii.eqb c minus_sign); reflexivity.
Qed.

Lemma ParseInt_finish_failure (s0 s : string) (neg : bool) (r : Z * option NumError) :
  ParseUint_failure s r ->
  exists v e, ParseInt_finish s0 neg r = (v, Some e).
Proof.
  intros [-> | ->]; simpl; [eauto|].
  destruct neg; simpl; eauto.
Qed.

Lemma to_int64_small (z : Z) : - 2 ^ 63 <= z < 2 ^ 63 -> to_int64 z = z.
Proof.
  unfold to_int64. rewrite two64_val. intros H.
  rewrite Z.mod_small; lia.
Qed.

Lemma to_int64_min : to_int64 (2 ^ 63) = - 2 ^ 63.
Proof. reflexivity. Qed.

Lemma ParseInt_finish_value (s0 : string) (neg : bool) (v : Z) :
  0 <= v < two64 ->
  let n := if neg then - v else v in
  ParseInt_finish s0 neg (v, None)
  = if (- 2 ^ 63 <=? n) && (n <? 2 ^ 63) then (n, None)
    else if neg then (to_int64 (- 2 ^ 63), Some (rangeError "ParseInt" s0))
         else (2 ^ 63 - 1, Some (rangeError "ParseInt" s0)).
Proof.
  rewrite two64_val. intros Hv. unfold ParseInt_finish. destruct neg; simpl negb; cbv zeta.
  - rewrite andb_false_l, andb_true_l.
    destruct (Z.ltb_spec (2 ^ 63) v) as [H|H].
    + replace (- 2 ^ 63 <=? - v) with false by (symmetry; apply Z.leb_gt; lia).
      reflexivity.
    + replace (- 2 ^ 63 <=? - v) with true by (symmetry; apply Z.leb_le; lia).
      replace (- v <? 2 ^ 63) with true by (symmetry; apply Z.ltb_lt; lia).
      simpl andb. cbv iota. f_equal.
      destruct (Z.eq_dec v (2 ^ 63)) as [->|Hne].
      * reflexivity.
      * rewrite (to_int64_small v) by lia. apply to_int64_small. lia.
  - rewrite andb_true_l, andb_false_l.
    destruct (Z.leb_spec (2 ^ 63) v) as [H|H].
    + replace (v <? 2 ^ 63) with false by (symmetry; apply Z.ltb_ge; lia).
      rewrite andb_false_r. reflexivity.
    + replace (v <? 2 ^ 63) with true by (symmetry; apply Z.ltb_lt; lia).
      replace (- 2 ^ 63 <=? v) with true by (symmetry; apply Z.leb_le; lia).
      simpl. f_equal. apply to_int64_small. lia.
Qed.

(** [ParseInt] accepts exactly the decimal 64-bit signed integers, with
    their value, and fails on every other string. *)
Lemma ParseInt_refines (s : string) :
  match decimal_int64 s with
  | Some n => ParseInt s = (n, None)
  | None => exists v e, ParseInt s = (v, Some e)
  end.
Proof.
  destruct s as [|c rest]; [simpl; eauto|].
  rewrite ParseInt_unfold, decimal_int64_unfold.
  destruct (strip_sign c rest) as [neg ds]. cbn [fst snd].
  destruct (unsigned_decimal ds) as [v|] eqn:Hu.
  - destruct (ParseUint_digits ds v Hu) as (Hv0 & Hfit & Hbig).
    cbv zeta.
    destruct (Z.lt_ge_cases v two64) as [Hlt|Hge].
    + rewrite (Hfit Hlt), ParseInt_finish_value by lia. cbv zeta.
      destruct (_ && _); [reflexivity|]. destruct neg; eauto.
    + rewrite (Hbig Hge).
      replace ((- 2 ^ 63 <=? (if neg then - v else v))
               && ((if neg then - v else v) <? 2 ^ 63)) with false.
      * destruct neg; simpl; eauto.
      * symmetry. rewrite two64_val in Hge. apply andb_false_iff.
        destruct neg; [left; apply Z.leb_gt | right; apply Z.ltb_ge]; lia.
  - apply ParseInt_finish_failure with (s := ds). apply ParseUint_not_digits, Hu.
Qed.

Lemma ParseInt_valid (s : string) (n : Z) :
  decimal_int64 s = Some n -> ParseInt s = (n, None).
Proof. intros H. pose proof (ParseInt_refines s) as R. rewrite H in R. exact R. Qed.

Lemma ParseInt_invalid (s : string) :
  decimal_int64 s = None -> exists v e, ParseInt s = (v, Some e).
Proof. intros H. pose proof (ParseInt_refines s) as R. rewrite H in R. exact R. Qed.

Lemma ParseInt_ok_inv (s : string) (n : Z) :
  ParseInt s = (n, None) -> decimal_int64 s = Some n.
Proof.
  intros H. pose proof (ParseInt_refines s) as R.
  destruct (decimal_int64 s) as [m|].
  - congruence.
  - destruct R as (v & e & E). congruence.
Qed.

End StrconvFacts.

(** ** [strings.Split] on a service-account user name *)

Module GoStringsFacts.

Lemma CountByte_app (a b : string) (c : ascii) :
  CountByte (a ++ b) c = (CountByte a c + CountByte b c)%nat.
Proof.
  induction a as [|x a IH]; simpl; [reflexivity|].
  destruct (Ascii.eqb x c); simpl; rewrite IH; reflexivity.
Qed.

Lemma IndexByte_absent (a : string) (c : ascii) :
  CountByte a c = O -> IndexByte a c = None.
Proof.
  induction a as [|x a IH]; simpl; [reflexivity|].
  destruct (Ascii.eqb x c); [discriminate|]. intros H. rewrite (IH H). reflexivity.
Qed.

Lemma IndexByte_first (a b : string) (c : ascii) :
  CountByte a c = O -> IndexByte (a ++ String c b) c = Some (len a).
Proof.
  induction a as [|x a IH]; simpl.
  - rewrite Ascii.eqb_refl. reflexivity.
  - destruct (Ascii.eqb x c); [discriminate|]. intros H. rewrite (IH H). reflexivity.
Qed.

Lemma substring_head (a b : string) : substring 0 (len a) (a ++ b) = a.
Proof.
  induction a as [|x a IH]; simpl.
  - destruct b; reflexivity.
  - f_equal. exact IH.
Qed.

Lemma substring_all (b : string) : substring 0 (len b) b = b.
Proof. induction b as [|x b IH]; simpl; [reflexivity|]. f_equal. exact IH. Qed.

Lemma substring_tail (a b : string) (c : ascii) :
  substring (len a + 1) (len (a ++ String c b) - (len a + 1)) (a ++ String c b) = b.
Proof.
  induction a as [|x a IH]; simpl.
  - rewrite Nat.sub_0_r. apply substring_all.
  - exact IH.
Qed.

(** One cut of the loop: the segment before the first separator, then the
    loop on what follows it. *)
Lemma genSplit_loop_cut (n : nat) (a b : string) (c : ascii) :
  CountByte a c = O ->
  genSplit_loop (S n) (a ++ String c b) c = a :: genSplit_loop n b c.
Proof.
  intros H. simpl. rewrite (IndexByte_first a b c H).
  rewrite substring_head, substring_tail. reflexivity.
Qed.

Lemma genSplit_loop_last (n : nat) (a : string) (c : ascii) :
  CountByte a c = O -> genSplit_loop n a c = [a].
Proof.
  intros H. destruct n; simpl; [reflexivity|].
  rewrite (IndexByte_absent a c H). reflexivity.
Qed.

Lemma Split_serviceaccount_username (ns name : string) :
  CountByte ns colon = O -> CountByte name colon = O ->
  Split (serviceaccount_username ns name) colon
  = ["system"; "serviceaccount"; ns; name].
Proof.
  intros Hns Hname. unfold Split, serviceaccount_username.
  assert (Hc : CountByte ("system:serviceaccount:" ++ ns ++ ":" ++ name) colon = 3%nat).
  { change ("system:serviceaccount:" ++ ns ++ ":" ++ name)
      with ("system:serviceaccount:" ++ (ns ++ String colon name)).
    rewrite !CountByte_app. simpl. rewrite Hns, Hname. reflexivity. }
  rewrite Hc.
  change ("system:serviceaccount:" ++ ns ++ ":" ++ name)
    with ("system" ++ String colon ("serviceaccount" ++ String colon (ns ++ String colon name))).
  rewrite genSplit_loop_cut by reflexivity.
  rewrite genSplit_loop_cut by reflexivity.
  rewrite genSplit_loop_cut by exact Hns.
  rewrite genSplit_loop_last by exact Hname. reflexivity.
Qed.

Lemma len_app (a b : string) : len (a ++ b) = (len a + len b)%nat.
Proof. induction a as [|x a IH]; simpl; [reflexivity|]. f_equal. exact IH. Qed.

Lemma HasPrefix_app (a b : string) : HasPrefix (a ++ b) a = true.
Proof.
  unfold HasPrefix. rewrite substring_head, String.eqb_refl, len_app.
  rewrite andb_true_r. apply Nat.leb_le. lia.
Qed.

Lemma HasPrefix_serviceaccount_username (ns name : string) :
  HasPrefix (serviceaccount_username ns name) "system:serviceaccount:" = true.
Proof.
  change (serviceaccount_username ns name)
    with ("system:serviceaccount:" ++ (ns ++ String colon name)).
  apply HasPrefix_app.
Qed.

End GoStringsFacts.

(** ** Runs of the mutator *)

Section Runs.

Context {PodFields SCFields : Type}.
Local Abbreviation state := (state PodFields SCFields).
Local Abbreviation PodValue := (PodValue PodFields SCFields).

Implicit Types (st : state) (k : cluster) (a : AdmissionRequest) (t : list event).

Lemma logged_nil st : logged st [] = st.
Proof. destruct st. unfold logged. simpl. rewrite app_nil_r. reflexivity. Qed.

Lemma logged_logged st t1 t2 : logged (logged st t1) t2 = logged st (t1 ++ t2)%list.
Proof. unfold logged. simpl. rewrite app_assoc. reflexivity. Qed.

Lemma pod_value_logged st t l : pod_value (logged st t) l = pod_value st l.
Proof. reflexivity. Qed.

Lemma no_store_access_app t1 t2 :
  no_store_access t1 -> no_store_access t2 -> no_store_access (t1 ++ t2)%list.
Proof.
  unfold no_store_access. intros H1 H2. rewrite forallb_app, H1, H2. reflexivity.
Qed.

(** [getServiceAccount] returns the same name whatever the heap, and only
    logs. *)
Lemma getServiceAccount_run a st :
  getServiceAccount (Some a) st = (Ret (extracted a), logged st (extraction_log a)).
Proof.
  unfold extracted, extraction_log, getServiceAccount.
  destruct (negb (Username (UserInfo_ a) =? "")%string
            && HasPrefix (Username (UserInfo_ a)) "system:serviceaccount:").
  - destruct (Split (Username (UserInfo_ a)) colon) as [|s1 [|s2 [|s3 [|s4 [|s5 l]]]]];
      simpl; rewrite ?logged_nil; reflexivity.
  - simpl. rewrite logged_nil. reflexivity.
Qed.

Lemma extraction_log_no_store a : no_store_access (extraction_log a).
Proof.
  unfold extraction_log, getServiceAccount.
  destruct (negb (Username (UserInfo_ a) =? "")%string
            && HasPrefix (Username (UserInfo_ a)) "system:serviceaccount:").
  - destruct (Split (Username (UserInfo_ a)) colon) as [|s1 [|s2 [|s3 [|s4 [|s5 l]]]]];
      reflexivity.
  - reflexivity.
Qed.

(** [setUID] fails, or gets as far as the assignment, depending on the
    cluster and the name only. *)
Lemma setUID_run k (existing : option loc) (serviceAccount : string) st :
  match resolution_error k serviceAccount with
  | Some e =>
      setUID k existing serviceAccount st
      = (Ret (None, Some e), logged st (resolution_log k serviceAccount))
  | None =>
      exists n, resolves k serviceAccount n
        /\ setUID k existing serviceAccount st
           = assign_uid existing n (logged st (resolution_log k serviceAccount))
  end.
Proof.
  unfold resolution_error, resolution_log, resolves, setUID, initClient,
    getConfigMap, read_data, assign_uid.
  destruct k as [icc nfc get]. destruct st as [ps ss ns tr].
  unfold bind, emit, ret, logged, new_int64. simpl.
  destruct icc as [msg|]; [simpl; reflexivity|].
  destruct nfc as [msg|]; [simpl; rewrite <- !app_assoc; reflexivity|].
  simpl.
  destruct (get namespace configMapName) as [msg|cm];
    [simpl; rewrite <- !app_assoc; reflexivity|].
  simpl.
  destruct (Data cm !! serviceAccount) as [raw|] eqn:Hraw; simpl;
    [|rewrite <- !app_assoc; reflexivity].
  destruct (String.eqb raw "") eqn:Hempty;
    [simpl; rewrite <- !app_assoc; reflexivity|].
  simpl.
  destruct (ParseInt raw) as [n [e|]] eqn:Hparse;
    [simpl; rewrite <- !app_assoc; reflexivity|].
  simpl. exists n. split.
  - repeat split. exists cm, raw. repeat split; try assumption.
    intros ->. discriminate Hempty.
  - rewrite <- !app_assoc. reflexivity.
Qed.

(** *** The deep copy *)

Lemma int64_value_inv st (o : option loc) (u : option Z) :
  int64_value st o = Some u ->
  match u with
  | None => o = None
  | Some z => exists l, o = Some l /\ int64s st !! l = Some z
  end.
Proof.
  unfold int64_value. destruct o as [l|].
  - destruct (int64s st !! l) as [z|] eqn:E; [|discriminate].
    intros [= <-]. eauto.
  - intros [= <-]. reflexivity.
Qed.

Lemma sc_value_inv st (o : option loc) (s : option (SecurityContextValue SCFields)) :
  sc_value st o = Some s ->
  match s with
  | None => o = None
  | Some scv =>
      exists l sc, o = Some l /\ secctxs st !! l = Some sc
        /\ scFields sc = sc_fields scv
        /\ int64_value st (RunAsUser sc) = Some (runAsUser scv)
  end.
Proof.
  unfold sc_value. destruct o as [l|].
  - destruct (secctxs st !! l) as [sc|] eqn:E; [|discriminate].
    destruct (int64_value st (RunAsUser sc)) as [u|] eqn:Eu; [|discriminate].
    intros [= <-]. exists l, sc. simpl. auto.
  - intros [= <-]. reflexivity.
Qed.

Lemma pod_value_inv st (p : loc) (v : PodValue) :
  pod_value st p = Some v ->
  exists pd, pods st !! p = Some pd
    /\ podFields pd = pod_fields v
    /\ sc_value st (SecurityContext (Spec pd)) = Some (securityContext v).
Proof.
  unfold pod_value. destruct (pods st !! p) as [pd|] eqn:E; [|discriminate].
  destruct (sc_value st (SecurityContext (Spec pd))) as [s|] eqn:Es; [|discriminate].
  intros [= <-]. exists pd. simpl. auto.
Qed.

Lemma lookup_snoc_old {A} (l : list A) (x y : A) (i : nat) :
  l !! i = Some y -> (l ++ [x])%list !! i = Some y.
Proof. intros H. apply lookup_app_l_Some, H. Qed.

Lemma lookup_snoc_new {A} (l : list A) (x : A) : (l ++ [x])%list !! length l = Some x.
Proof. apply list_lookup_middle. reflexivity. Qed.

Lemma insert_snoc_new {A} (l : list A) (x y : A) :
  <[length l := y]> (l ++ [x])%list = (l ++ [y])%list.
Proof.
  rewrite insert_app_r_alt by lia. rewrite Nat.sub_diag. reflexivity.
Qed.

Lemma Pod_DeepCopy_run st (p : loc) (v : PodValue) :
  pod_value st p = Some v ->
  Pod_DeepCopy (Some p) st = (Ret (Some (length (pods st))), copy_state st v).
Proof.
  intros Hv. destruct (pod_value_inv st p v Hv) as (pd & Hpd & Hf & Hsc).
  apply sc_value_inv in Hsc.
  unfold Pod_DeepCopy, copy_state, bind, load_pod. rewrite Hpd.
  destruct (securityContext v) as [scv|].
  - destruct Hsc as (l & sc & -> & Hl & Hscf & Hu). apply int64_value_inv in Hu.
    unfold PodSecurityContext_DeepCopy, bind, load_sc. rewrite Hl.
    destruct (runAsUser scv) as [z|].
    + destruct Hu as (i & -> & Hi).
      unfold DeepCopy_int64, bind, load_int64. rewrite Hi. simpl.
      rewrite Hf, Hscf. reflexivity.
    + rewrite Hu. simpl. rewrite Hf, Hscf. reflexivity.
  - rewrite Hsc. simpl. rewrite Hf. reflexivity.
Qed.

Lemma preserved_refl st : preserved st st.
Proof. unfold preserved. auto. Qed.

Lemma preserved_trans st1 st2 st3 :
  preserved st1 st2 -> preserved st2 st3 -> preserved st1 st3.
Proof.
  unfold preserved. intros (A1 & B1 & C1) (A2 & B2 & C2).
  repeat split; etrans; eassumption.
Qed.

Lemma preserved_logged st t : preserved st (logged st t).
Proof. unfold preserved, logged. simpl. auto. Qed.

Lemma preserved_copy_state st (v : PodValue) : preserved st (copy_state st v).
Proof.
  unfold preserved, copy_state.
  destruct (securityContext v) as [scv|]; [destruct (runAsUser scv)|]; simpl;
    repeat split; try apply prefix_app_r; reflexivity.
Qed.

(** A Pod that is in the heap keeps its value as long as the heap is only
    extended. *)
Lemma pod_value_preserved st st' (p : loc) (v : PodValue) :
  preserved st st' -> pod_value st p = Some v -> pod_value st' p = Some v.
Proof.
  intros (Hp & Hs & Hi) Hv.
  destruct (pod_value_inv st p v Hv) as (pd & Hpd & Hf & Hsc).
  unfold pod_value. rewrite (prefix_lookup_Some _ _ _ _ Hpd Hp).
  pose proof (sc_value_inv _ _ _ Hsc) as Hsc'.
  destruct v as [[scv|] pf]; simpl in *.
  - destruct Hsc' as (l & sc & El & Hl & Hscf & Hu). rewrite El. simpl.
    rewrite (prefix_lookup_Some _ _ _ _ Hl Hs).
    pose proof (int64_value_inv _ _ _ Hu) as Hu'.
    destruct scv as [[z|] sf]; simpl in *.
    + destruct Hu' as (i & Ei & Hi'). rewrite Ei. simpl.
      rewrite (prefix_lookup_Some _ _ _ _ Hi' Hi). subst. reflexivity.
    + rewrite Hu'. simpl. subst. reflexivity.
  - rewrite Hsc'. simpl. subst. reflexivity.
Qed.

(** The copy has the value of the original. *)
Lemma pod_value_copy_state st (v : PodValue) :
  pod_value (copy_state st v) (length (pods st)) = Some v.
Proof.
  unfold pod_value, copy_state. destruct v as [[[[z|] sf]|] pf]; simpl;
    rewrite lookup_snoc_new; simpl; rewrite ?lookup_snoc_new; simpl;
    rewrite ?lookup_snoc_new; reflexivity.
Qed.

(** *** [Mutate], path by path *)

Lemma bind_run {A B} {m : M PodFields SCFields A} {st x st'}
    (f : A -> M PodFields SCFields B) :
  m st = (Ret x, st') -> bind m f st = f x st'.
Proof. unfold bind. intros ->. reflexivity. Qed.

Lemma bind_panic {A B} {m : M PodFields SCFields A} {st st'}
    (f : A -> M PodFields SCFields B) :
  m st = (Panic, st') -> bind m f st = (Panic, st').
Proof. unfold bind. intros ->. reflexivity. Qed.

Lemma load_pod_run st (l : loc) pd :
  pods st !! l = Some pd -> load_pod (Some l) st = (Ret pd, st).
Proof. unfold load_pod. intros ->. reflexivity. Qed.

Lemma emit_run st (e : event) : emit e st = (Ret tt, logged st [e]).
Proof. reflexivity. Qed.

Lemma sc_value_preserved st st' (o : option loc) s :
  preserved st st' -> sc_value st o = Some s -> sc_value st' o = Some s.
Proof.
  intros (_ & Hs & Hi) Hsc.
  pose proof (sc_value_inv _ _ _ Hsc) as Hsc'.
  destruct s as [scv|].
  - destruct Hsc' as (l & sc & El & Hl & Hscf & Hu). rewrite El. simpl.
    rewrite (prefix_lookup_Some _ _ _ _ Hl Hs).
    pose proof (int64_value_inv _ _ _ Hu) as Hu'.
    destruct scv as [[z|] sf]; simpl in *.
    + destruct Hu' as (i & Ei & Hi'). rewrite Ei. simpl.
      rewrite (prefix_lookup_Some _ _ _ _ Hi' Hi). subst. reflexivity.
    + rewrite Hu'. simpl. subst. reflexivity.
  - rewrite Hsc'. reflexivity.
Qed.

(** The test of [Mutate] on the security context of the original. *)
Lemma noRunAsUser_run st (o : option loc) s :
  sc_value st o = Some s ->
  noRunAsUser o st
  = (Ret (bool_decide (match s with Some scv => runAsUser scv | None => None end = None)),
     st).
Proof.
  intros Hsc. apply sc_value_inv in Hsc. unfold noRunAsUser.
  destruct s as [scv|].
  - destruct Hsc as (l & sc & -> & Hl & _ & Hu). apply int64_value_inv in Hu.
    unfold bind, load_sc. rewrite Hl. unfold ret. f_equal. f_equal.
    destruct (runAsUser scv) as [z|].
    + destruct Hu as (i & -> & _). reflexivity.
    + rewrite Hu. reflexivity.
  - rewrite Hsc. reflexivity.
Qed.

Lemma pods_copy_state st (v : PodValue) :
  pods (copy_state st v)
  = (pods st ++ [mkPod (mkPodSpec (copy_sc st v)) (pod_fields v)])%list.
Proof.
  unfold copy_state, copy_sc.
  destruct (securityContext v) as [scv|]; [destruct (runAsUser scv)|]; reflexivity.
Qed.

(** The steps of [Mutate] up to the two tests: the copy is made, the name
    is extracted, and the test on [RunAsUser] is evaluated. *)
Lemma Mutate_prefix k (p : loc) a st (v : PodValue)
    (cont : option loc -> string -> bool -> M PodFields SCFields (option loc * option error)) :
  pod_value st p = Some v ->
  (let! mpod := Pod_DeepCopy (Some p) in
   let! pd := load_pod (Some p) in
   let! serviceAccount := getServiceAccount (Some a) in
   let! unset := noRunAsUser (SecurityContext (Spec pd)) in
   cont mpod serviceAccount unset) st
  = cont (Some (length (pods st))) (extracted a)
      (bool_decide (runAsUser_of v = None))
      (logged (copy_state st v) (extraction_log a)).
Proof.
  intros Hv. destruct (pod_value_inv st p v Hv) as (pd & Hpd & Hf & Hsc).
  rewrite (bind_run _ (Pod_DeepCopy_run st p v Hv)).
  assert (Hpd' : pods (copy_state st v) !! p = Some pd).
  { rewrite pods_copy_state. apply lookup_snoc_old, Hpd. }
  rewrite (bind_run _ (load_pod_run _ _ _ Hpd')).
  rewrite (bind_run _ (getServiceAccount_run a _)).
  assert (Hsc' : sc_value (logged (copy_state st v) (extraction_log a))
                   (SecurityContext (Spec pd)) = Some (securityContext v)).
  { apply sc_value_preserved with (st := st); [|exact Hsc].
    eapply preserved_trans; [apply preserved_copy_state | apply preserved_logged]. }
  rewrite (bind_run _ (noRunAsUser_run _ _ _ Hsc')). reflexivity.
Qed.

(** No resolution: [RunAsUser] is set, or no ServiceAccount was extracted.
    [Mutate] returns the copy. *)
Lemma Mutate_noop_run k (p : loc) a st (v : PodValue) :
  pod_value st p = Some v ->
  runAsUser_of v <> None \/ extracted a = "" ->
  Mutate k (Some p) (Some a) st
  = (Ret (Some (length (pods st)), None),
     logged (copy_state st v) (extraction_log a)).
Proof.
  intros Hv Hcase. unfold Mutate.
  rewrite (Mutate_prefix k p a st v
             (fun mpod serviceAccount unset => if unset then _ else _) Hv).
  destruct Hcase as [Hset | Hname].
  - rewrite bool_decide_eq_false_2 by exact Hset. reflexivity.
  - rewrite Hname. destruct (bool_decide _); reflexivity.
Qed.

(** Resolution: [RunAsUser] is not set and a ServiceAccount was extracted.
    [Mutate] calls [setUID] on the security context of the copy. *)
Lemma Mutate_resolution_run k (p : loc) a st (v : PodValue) :
  pod_value st p = Some v ->
  runAsUser_of v = None ->
  extracted a <> "" ->
  Mutate k (Some p) (Some a) st
  = (let! (sc, err) := setUID k (copy_sc st v) (extracted a) in
     let! mpd' := load_pod (Some (length (pods st))) in
     store_pod (Some (length (pods st))) (mkPod (mkPodSpec sc) (podFields mpd')) ;;
     match err with
     | Some e => ret (None, Some (ErrSetRunAsUser e))
     | None => ret (Some (length (pods st)), None)
     end) (logged (copy_state st v) (decision_log a)).
Proof.
  intros Hv Hunset Hname. unfold Mutate.
  rewrite (Mutate_prefix k p a st v
             (fun mpod serviceAccount unset => if unset then _ else _) Hv).
  cbv beta. rewrite bool_decide_eq_true_2 by exact Hunset.
  apply String.eqb_neq in Hname. rewrite Hname. cbn [negb]. cbv iota.
  rewrite (bind_run _ (emit_run _ _)). rewrite logged_logged.
  fold (decision_log a).
  assert (Hmp : pods (logged (copy_state st v) (decision_log a)) !! length (pods st)
                = Some (mkPod (mkPodSpec (copy_sc st v)) (pod_fields v))).
  { simpl. rewrite pods_copy_state. apply lookup_snoc_new. }
  rewrite (bind_run _ (load_pod_run _ _ _ Hmp)). reflexivity.
Qed.

Lemma Mutate_error_run k (p : loc) a st (v : PodValue) (e : error) :
  pod_value st p = Some v ->
  runAsUser_of v = None ->
  extracted a <> "" ->
  resolution_error k (extracted a) = Some e ->
  Mutate k (Some p) (Some a) st
  = (Ret (None, Some (ErrSetRunAsUser e)), failed_state k a st v).
Proof.
  intros Hv Hunset Hname Herr.
  rewrite (Mutate_resolution_run k p a st v Hv Hunset Hname).
  pose proof (setUID_run k (copy_sc st v) (extracted a)
                (logged (copy_state st v) (decision_log a))) as Hrun.
  rewrite Herr in Hrun. rewrite (bind_run _ Hrun). rewrite logged_logged.
  fold (resolution_trace k a).
  assert (Hmp : pods (logged (copy_state st v) (resolution_trace k a)) !! length (pods st)
                = Some (mkPod (mkPodSpec (copy_sc st v)) (pod_fields v))).
  { simpl. rewrite pods_copy_state. apply lookup_snoc_new. }
  rewrite (bind_run _ (load_pod_run _ _ _ Hmp)).
  unfold bind, store_pod. rewrite Hmp. unfold ret, failed_state. simpl.
  rewrite pods_copy_state, insert_snoc_new.
  replace (trace (copy_state st v)) with (trace st); [reflexivity|].
  unfold copy_state.
  destruct (securityContext v) as [scv|]; [destruct (runAsUser scv)|]; reflexivity.
Qed.

Lemma resolves_unique k (serviceAccount : string) (n m : Z) :
  resolves k serviceAccount n -> resolves k serviceAccount m -> n = m.
Proof.
  intros (_ & _ & cm & raw & Hget & Hraw & _ & Hparse)
         (_ & _ & cm' & raw' & Hget' & Hraw' & _ & Hparse').
  congruence.
Qed.

Lemma resolves_no_error k (serviceAccount : string) (n : Z) :
  resolves k serviceAccount n -> resolution_error k serviceAccount = None.
Proof.
  intros (Hicc & Hnfc & cm & raw & Hget & Hraw & Hne & Hparse).
  unfold resolution_error, setUID, initClient, getConfigMap, read_data, bind, emit, ret.
  rewrite Hicc, Hnfc. simpl. rewrite Hget. simpl. rewrite Hraw. simpl.
  apply String.eqb_neq in Hne. rewrite Hne. simpl. rewrite Hparse. reflexivity.
Qed.

Lemma Mutate_applied_run k (p : loc) a st (v : PodValue)
    (sf : SCFields) (n : Z) :
  pod_value st p = Some v ->
  securityContext v = Some (mkSCV None sf) ->
  extracted a <> "" ->
  resolves k (extracted a) n ->
  Mutate k (Some p) (Some a) st
  = (Ret (Some (length (pods st)), None), applied_state k a st v sf n).
Proof.
  intros Hv Hsc Hname Hres.
  assert (Hunset : runAsUser_of v = None) by (unfold runAsUser_of; rewrite Hsc; reflexivity).
  rewrite (Mutate_resolution_run k p a st v Hv Hunset Hname).
  pose proof (setUID_run k (copy_sc st v) (extracted a)
                (logged (copy_state st v) (decision_log a))) as Hrun.
  rewrite (resolves_no_error _ _ _ Hres) in Hrun.
  destruct Hrun as (m & Hm & Hrun).
  rewrite (resolves_unique _ _ _ _ Hm Hres) in Hrun.
  unfold bind at 1. rewrite Hrun. rewrite logged_logged.
  fold (resolution_trace k a).
  unfold copy_sc, copy_state, applied_state. rewrite Hsc. simpl.
  unfold assign_uid, bind, new_int64, load_sc, store_sc, load_pod, store_pod, ret, logged.
  simpl. rewrite lookup_snoc_new. simpl. rewrite lookup_snoc_new. simpl.
  rewrite lookup_snoc_new. simpl. rewrite lookup_snoc_new.
  rewrite !insert_snoc_new. reflexivity.
Qed.

(** With a nil security context, [setUID] dereferences nil at its last
    assignment. *)
Lemma Mutate_panic_run k (p : loc) a st (v : PodValue) (n : Z) :
  pod_value st p = Some v ->
  securityContext v = None ->
  extracted a <> "" ->
  resolves k (extracted a) n ->
  Mutate k (Some p) (Some a) st
  = (Panic,
     mkState (pods st ++ [mkPod (mkPodSpec None) (pod_fields v)])
       (secctxs st) (int64s st ++ [n]) (trace st ++ resolution_trace k a)).
Proof.
  intros Hv Hsc Hname Hres.
  assert (Hunset : runAsUser_of v = None) by (unfold runAsUser_of; rewrite Hsc; reflexivity).
  rewrite (Mutate_resolution_run k p a st v Hv Hunset Hname).
  pose proof (setUID_run k (copy_sc st v) (extracted a)
                (logged (copy_state st v) (decision_log a))) as Hrun.
  rewrite (resolves_no_error _ _ _ Hres) in Hrun.
  destruct Hrun as (m & Hm & Hrun).
  rewrite (resolves_unique _ _ _ _ Hm Hres) in Hrun.
  unfold bind at 1. rewrite Hrun. rewrite logged_logged.
  fold (resolution_trace k a).
  unfold copy_sc, copy_state. rewrite Hsc. reflexivity.
Qed.

Lemma trace_copy_state st (v : PodValue) : trace (copy_state st v) = trace st.
Proof.
  unfold copy_state.
  destruct (securityContext v) as [scv|]; [destruct (runAsUser scv)|]; reflexivity.
Qed.

Lemma Mutate_noop_spec k (p : loc) a st (v : PodValue) :
  pod_value st p = Some v ->
  runAsUser_of v <> None \/ extracted a = "" ->
  returns_unchanged (Mutate k (Some p) (Some a) st) st p v.
Proof.
  intros Hv Hcase. rewrite (Mutate_noop_run k p a st v Hv Hcase).
  exists (length (pods st)), (extraction_log a). cbn [fst snd].
  split; [reflexivity|]. split; [|split; [|split]].
  - rewrite pod_value_logged. apply pod_value_copy_state.
  - rewrite pod_value_logged.
    apply pod_value_preserved with (st := st); [apply preserved_copy_state | exact Hv].
  - simpl. rewrite trace_copy_state. reflexivity.
  - apply extraction_log_no_store.
Qed.

(** A user name without the prefix, or not of four segments, gives no
    ServiceAccount. *)
Lemma extracted_absent a :
  HasPrefix (Username (UserInfo_ a)) "system:serviceaccount:" = false
  \/ length (Split (Username (UserInfo_ a)) colon) <> 4%nat ->
  extracted a = "".
Proof.
  unfold extracted, getServiceAccount. intros [Hp | Hlen].
  - rewrite Hp, andb_false_r. reflexivity.
  - destruct (negb _ && _); [|reflexivity].
    destruct (Split (Username (UserInfo_ a)) colon) as [|s1 [|s2 [|s3 [|s4 [|s5 l]]]]];
      try reflexivity.
    exfalso. apply Hlen. reflexivity.
Qed.

(** A ServiceAccount user name gives its last segment. *)
Lemma extracted_serviceaccount (ns name : string) :
  CountByte ns colon = O -> CountByte name colon = O ->
  extracted (mkAdmissionRequest
               (mkUserInfo (serviceaccount_username ns name)))
  = name.
Proof.
  intros Hns Hname. unfold extracted, getServiceAccount. cbn [UserInfo_ Username].
  rewrite GoStringsFacts.HasPrefix_serviceaccount_username.
  rewrite (GoStringsFacts.Split_serviceaccount_username ns name Hns Hname).
  reflexivity.
Qed.

Lemma resolution_error_unmapped k data (serviceAccount : string) :
  store_data k data ->
  data !! serviceAccount = None \/ data !! serviceAccount = Some "" ->
  resolution_error k serviceAccount = Some ErrNoUID.
Proof.
  intros (Hicc & Hnfc & cm & Hget & <-) Hraw.
  unfold resolution_error, setUID, initClient, getConfigMap, read_data, bind, emit, ret.
  rewrite Hicc, Hnfc. simpl. rewrite Hget. simpl.
  destruct Hraw as [-> | ->]; reflexivity.
Qed.

Lemma resolution_error_malformed k data (serviceAccount raw : string) :
  store_data k data ->
  data !! serviceAccount = Some raw -> raw <> "" -> decimal_int64 raw = None ->
  exists e, snd (ParseInt raw) = Some e
    /\ resolution_error k serviceAccount = Some (ErrConvertUID e).
Proof.
  intros (Hicc & Hnfc & cm & Hget & <-) Hraw Hne Hbad.
  destruct (StrconvFacts.ParseInt_invalid raw Hbad) as (x & e & Hparse).
  exists e. rewrite Hparse. split; [reflexivity|].
  unfold resolution_error, setUID, initClient, getConfigMap, read_data, bind, emit, ret.
  rewrite Hicc, Hnfc. simpl. rewrite Hget. simpl. rewrite Hraw. simpl.
  apply String.eqb_neq in Hne. rewrite Hne. simpl. rewrite Hparse. reflexivity.
Qed.

Lemma resolves_intro k data (serviceAccount raw : string) (n : Z) :
  store_data k data ->
  data !! serviceAccount = Some raw -> decimal_int64 raw = Some n ->
  resolves k serviceAccount n.
Proof.
  intros (Hicc & Hnfc & cm & Hget & <-) Hraw Hdec.
  split; [exact Hicc|]. split; [exact Hnfc|].
  exists cm, raw. repeat split; try assumption.
  - intros ->. discriminate Hdec.
  - apply StrconvFacts.ParseInt_valid, Hdec.
Qed.

(** The errors of [setUID] are of the four kinds: client, fetch, unmapped
    name, malformed value. *)
Lemma resolution_error_kinds k (serviceAccount : string) (e : error) :
  resolution_error k serviceAccount = Some e ->
  (exists c, e = ErrInitClient c) \/ (exists c, e = ErrSetUID c)
  \/ e = ErrNoUID \/ (exists c, e = ErrConvertUID c).
Proof.
  unfold resolution_error, setUID, initClient, getConfigMap, read_data, bind, emit, ret.
  destruct k as [icc nfc get]. simpl.
  destruct icc; simpl; [intros [= <-]; eauto|].
  destruct nfc; simpl; [intros [= <-]; eauto|].
  destruct (get namespace configMapName) as [msg|cm]; simpl; [intros [= <-]; eauto|].
  destruct (String.eqb (default "" (Data cm !! serviceAccount)) ""); simpl;
    [intros [= <-]; eauto|].
  destruct (ParseInt (default "" (Data cm !! serviceAccount))) as [n [c|]]; simpl;
    [intros [= <-]; eauto 6|discriminate].
Qed.

(** The three ways the resolution path ends. *)
Lemma Mutate_resolution_cases k (p : loc) a st (v : PodValue) :
  pod_value st p = Some v ->
  runAsUser_of v = None ->
  extracted a <> "" ->
  (exists e, resolution_error k (extracted a) = Some e
     /\ Mutate k (Some p) (Some a) st
        = (Ret (None, Some (ErrSetRunAsUser e)), failed_state k a st v))
  \/ (exists n, resolves k (extracted a) n /\ securityContext v = None
     /\ Mutate k (Some p) (Some a) st
        = (Panic,
           mkState (pods st ++ [mkPod (mkPodSpec None) (pod_fields v)])
             (secctxs st) (int64s st ++ [n]) (trace st ++ resolution_trace k a)))
  \/ (exists n sf, resolves k (extracted a) n
     /\ securityContext v = Some (mkSCV None sf)
     /\ Mutate k (Some p) (Some a) st
        = (Ret (Some (length (pods st)), None), applied_state k a st v sf n)).
Proof.
  intros Hv Hunset Hname.
  destruct (resolution_error k (extracted a)) as [e|] eqn:Herr.
  - left. exists e. split; [reflexivity|].
    apply Mutate_error_run; assumption.
  - right.
    pose proof (setUID_run k None (extracted a) st) as Hrun. rewrite Herr in Hrun.
    destruct Hrun as (n & Hres & _).
    destruct (securityContext v) as [[u sf]|] eqn:Hsc.
    + right. exists n, sf. split; [exact Hres|].
      assert (u = None) as ->.
      { unfold runAsUser_of in Hunset. rewrite Hsc in Hunset. exact Hunset. }
      split; [reflexivity|]. apply Mutate_applied_run; assumption.
    + left. exists n. split; [exact Hres|]. split; [reflexivity|].
      apply Mutate_panic_run; assumption.
Qed.

Lemma Mutate_resolution_trace k (p : loc) a st (v : PodValue) :
  pod_value st p = Some v ->
  runAsUser_of v = None ->
  extracted a <> "" ->
  trace (snd (Mutate k (Some p) (Some a) st)) = (trace st ++ resolution_trace k a)%list.
Proof.
  intros Hv Hunset Hname.
  destruct (Mutate_resolution_cases k p a st v Hv Hunset Hname)
    as [(e & _ & ->) | [(n & _ & _ & ->) | (n & sf & _ & _ & ->)]]; reflexivity.
Qed.

(** [setUID] reads the data under the name it was given and under no other
    key. *)
Lemma resolution_log_keys k (serviceAccount key : string) :
  In (ReadData key) (resolution_log k serviceAccount) -> key = serviceAccount.
Proof.
  unfold resolution_log, setUID, initClient, getConfigMap, read_data, bind, emit, ret.
  destruct k as [icc nfc get]. simpl.
  destruct icc; simpl; [intuition discriminate|].
  destruct nfc; simpl; [intuition discriminate|].
  destruct (get namespace configMapName) as [msg|cm]; simpl; [intuition discriminate|].
  destruct (String.eqb (default "" (Data cm !! serviceAccount)) ""); simpl;
    [intuition congruence|].
  destruct (ParseInt (default "" (Data cm !! serviceAccount))) as [n [c|]]; simpl;
    intuition congruence.
Qed.

Lemma resolution_log_reads k data (serviceAccount : string) :
  store_data k data -> In (ReadData serviceAccount) (resolution_log k serviceAccount).
Proof.
  intros (Hicc & Hnfc & cm & Hget & _).
  unfold resolution_log, setUID, initClient, getConfigMap, read_data, bind, emit, ret.
  rewrite Hicc, Hnfc. simpl. rewrite Hget. simpl.
  destruct (String.eqb (default "" (Data cm !! serviceAccount)) ""); simpl; [auto 10|].
  destruct (ParseInt (default "" (Data cm !! serviceAccount))) as [n [c|]]; simpl;
    auto 10.
Qed.

Lemma resolution_log_starts k (serviceAccount : string) :
  exists t, resolution_log k serviceAccount = CallInClusterConfig :: t.
Proof.
  unfold resolution_log, setUID, initClient, getConfigMap, read_data, bind, emit, ret.
  destruct k as [icc nfc get]. simpl.
  destruct icc; simpl; [eauto|].
  destruct nfc; simpl; [eauto|].
  destruct (get namespace configMapName) as [msg|cm]; simpl; [eauto|].
  destruct (String.eqb (default "" (Data cm !! serviceAccount)) ""); simpl; [eauto|].
  destruct (ParseInt (default "" (Data cm !! serviceAccount))) as [n [c|]]; simpl; eauto.
Qed.

Lemma decision_log_no_store a : no_store_access (decision_log a).
Proof.
  unfold decision_log. apply no_store_access_app; [apply extraction_log_no_store|].
  reflexivity.
Qed.

Lemma no_store_access_In t (e : event) :
  no_store_access t -> In e t -> store_event e = false.
Proof.
  unfold no_store_access. rewrite forallb_forall. intros H Hin.
  apply negb_true_iff. apply H, Hin.
Qed.

(** *** Every run of [Mutate] *)

Lemma Pod_DeepCopy_preserved (o : option loc) st :
  preserved st (snd (Pod_DeepCopy o st)).
Proof.
  unfold Pod_DeepCopy, PodSecurityContext_DeepCopy, DeepCopy_int64, bind,
    load_pod, load_sc, load_int64, new_pod, new_sc, new_int64, ret, preserved.
  destruct o as [l|]; simpl; [|auto].
  destruct (pods st !! l) as [pd|]; simpl; [|auto].
  destruct (SecurityContext (Spec pd)) as [ls|]; simpl;
    [|repeat split; try apply prefix_app_r; reflexivity].
  destruct (secctxs st !! ls) as [sc|]; simpl; [|auto].
  destruct (RunAsUser sc) as [li|]; simpl;
    [|repeat split; try apply prefix_app_r; reflexivity].
  destruct (int64s st !! li) as [z|]; simpl; [|auto].
  repeat split; try apply prefix_app_r; reflexivity.
Qed.

Lemma Pod_DeepCopy_Ret_inv (p : loc) st r st1 :
  Pod_DeepCopy (Some p) st = (Ret r, st1) -> exists v, pod_value st p = Some v.
Proof.
  unfold Pod_DeepCopy, PodSecurityContext_DeepCopy, DeepCopy_int64, bind,
    load_pod, load_sc, load_int64, new_pod, new_sc, new_int64, ret,
    pod_value, sc_value, int64_value.
  destruct (pods st !! p) as [pd|]; simpl; [|discriminate].
  destruct (SecurityContext (Spec pd)) as [ls|]; simpl; [|eauto].
  destruct (secctxs st !! ls) as [sc|]; simpl; [|discriminate].
  destruct (RunAsUser sc) as [li|]; simpl; [|eauto].
  destruct (int64s st !! li) as [z|]; simpl; [eauto|discriminate].
Qed.

Lemma preserved_failed_state k a st (v : PodValue) : preserved st (failed_state k a st v).
Proof.
  destruct (preserved_copy_state st v) as (_ & Hs & Hi).
  unfold preserved, failed_state. simpl. repeat split; try assumption.
  apply prefix_app_r. reflexivity.
Qed.

Lemma preserved_applied_state k a st (v : PodValue) (sf : SCFields) (n : Z) :
  preserved st (applied_state k a st v sf n).
Proof.
  unfold preserved, applied_state. simpl.
  repeat split; apply prefix_app_r; reflexivity.
Qed.

Lemma pod_value_applied_state k a st (v : PodValue) (sf : SCFields) (n : Z) :
  pod_value (applied_state k a st v sf n) (length (pods st))
  = Some (mkPV (Some (mkSCV (Some n) sf)) (pod_fields v)).
Proof.
  unfold pod_value, applied_state. simpl.
  rewrite lookup_snoc_new. simpl. rewrite lookup_snoc_new. simpl.
  rewrite lookup_snoc_new. reflexivity.
Qed.

Lemma Mutate_outcome k (pod : option loc) (a : option AdmissionRequest) st :
  outcome k pod a st (Mutate k pod a st).
Proof.
  destruct pod as [p|]; [|apply outcome_panic, preserved_refl].
  destruct (pod_value st p) as [v|] eqn:Hv.
  - destruct (pod_value_inv st p v Hv) as (pd & Hpd & _ & _).
    destruct a as [a'|].
    + destruct (String.eqb_spec (extracted a') "") as [Hname | Hname].
      { rewrite (Mutate_noop_run k p a' st v Hv (or_intror Hname)).
        eapply outcome_unchanged; eauto. }
      destruct (runAsUser_of v) as [uid|] eqn:Hu.
      { assert (Hset : runAsUser_of v <> None) by (rewrite Hu; discriminate).
        rewrite (Mutate_noop_run k p a' st v Hv (or_introl Hset)).
        eapply outcome_unchanged; eauto. }
      destruct (Mutate_resolution_cases k p a' st v Hv Hu Hname)
        as [(e & Herr & ->) | [(n & _ & _ & ->) | (n & sf & Hres & Hsc & ->)]].
      * eapply outcome_failed; eauto.
      * apply outcome_panic. destruct (preserved_copy_state st v) as (_ & Hs & _).
        unfold preserved. simpl. repeat split; try apply prefix_app_r; reflexivity.
      * eapply outcome_applied; eauto.
    + unfold Mutate.
      rewrite (bind_run _ (Pod_DeepCopy_run st p v Hv)).
      assert (Hpd' : pods (copy_state st v) !! p = Some pd).
      { rewrite pods_copy_state. apply lookup_snoc_old, Hpd. }
      rewrite (bind_run _ (load_pod_run _ _ _ Hpd')).
      apply outcome_panic, preserved_copy_state.
  - destruct (Pod_DeepCopy (Some p) st) as [[r|] st1] eqn:Hcopy.
    + destruct (Pod_DeepCopy_Ret_inv p st r st1 Hcopy) as (v & Hv'). congruence.
    + unfold Mutate. rewrite (bind_panic _ Hcopy).
      apply outcome_panic. pose proof (Pod_DeepCopy_preserved (Some p) st) as H.
      rewrite Hcopy in H. exact H.
Qed.

(** ** The properties of the specification *)

Lemma Mutate_keeps_existing_RunAsUser_aux k (p : loc) a st (v : PodValue) (uid : Z) :
  pod_value st p = Some v ->
  runAsUser_of v = Some uid ->
  returns_unchanged (Mutate k (Some p) (Some a) st) st p v.
Proof.
  intros Hv Hset. apply Mutate_noop_spec; [exact Hv|].
  left. rewrite Hset. discriminate.
Qed.

(** C4. A Pod that already has a [RunAsUser] comes back unchanged, whatever
    the request and the cluster, and neither the client is built, nor the
    ConfigMap fetched, nor a key read. *)
Theorem Mutate_keeps_existing_RunAsUser k (p : loc) a st (v : PodValue) (uid : Z) :
  pod_value st p = Some v ->
  runAsUser_of v = Some uid ->
  returns_unchanged (Mutate k (Some p) (Some a) st) st p v.
Proof.
  intros Hv Hset. apply Mutate_keeps_existing_RunAsUser_aux with (uid := uid); assumption.
Qed.

(** C5. When the user name does not start with [system:serviceaccount:],
    or starts with it but does not split into exactly four segments,
    [getServiceAccount] returns the empty string and [Mutate] returns the
    Pod unchanged without touching the mapping store. *)
Theorem Mutate_without_ServiceAccount k (p : loc) a st (v : PodValue) :
  HasPrefix (Username (UserInfo_ a)) "system:serviceaccount:" = false
  \/ length (Split (Username (UserInfo_ a)) colon) <> 4%nat ->
  pod_value st p = Some v ->
  fst (getServiceAccount (Some a) st) = Ret ""
  /\ returns_unchanged (Mutate k (Some p) (Some a) st) st p v.
Proof.
  intros Hform Hv. pose proof (extracted_absent a Hform) as Hname. split.
  - rewrite getServiceAccount_run, Hname. reflexivity.
  - apply Mutate_noop_spec; [exact Hv|]. right. exact Hname.
Qed.

(** C10. [Mutate] returns an error only if a non-empty ServiceAccount name
    was extracted and the Pod had no [RunAsUser]; in every other case it
    returns a Pod and a nil error. *)
Theorem Mutate_error_only_on_resolution k (p : loc) a st (v : PodValue) :
  pod_value st p = Some v ->
  (forall r e, fst (Mutate k (Some p) (Some a) st) = Ret (r, Some e) ->
     extracted a <> "" /\ runAsUser_of v = None)
  /\ (runAsUser_of v <> None \/ extracted a = "" ->
      exists p', fst (Mutate k (Some p) (Some a) st) = Ret (Some p', None)).
Proof.
  intros Hv. split.
  - intros r e Hout.
    destruct (String.eqb_spec (extracted a) "") as [Hname | Hname].
    + rewrite (Mutate_noop_run k p a st v Hv (or_intror Hname)) in Hout.
      discriminate Hout.
    + split; [exact Hname|].
      destruct (runAsUser_of v) as [uid|] eqn:Hu; [|reflexivity].
      assert (Hset : runAsUser_of v <> None) by (rewrite Hu; discriminate).
      rewrite (Mutate_noop_run k p a st v Hv (or_introl Hset)) in Hout.
      discriminate Hout.
  - intros Hcase. rewrite (Mutate_noop_run k p a st v Hv Hcase). eauto.
Qed.

(** C6. When the extracted name is not a key of the data, or is mapped to
    the empty string, [setUID] fails with the "no UID" error and [Mutate]
    returns a nil Pod and the error. *)
Theorem Mutate_unmapped_principal k data (p : loc) a st (v : PodValue) :
  store_data k data ->
  extracted a <> "" ->
  data !! extracted a = None \/ data !! extracted a = Some "" ->
  pod_value st p = Some v ->
  runAsUser_of v = None ->
  (forall (existing : option loc) st1,
     fst (setUID k existing (extracted a) st1) = Ret (None, Some ErrNoUID))
  /\ fst (Mutate k (Some p) (Some a) st)
     = Ret (None, Some (ErrSetRunAsUser ErrNoUID)).
Proof.
  intros Hstore Hname Hraw Hv Hunset.
  pose proof (resolution_error_unmapped k data (extracted a) Hstore Hraw) as Herr.
  split.
  - intros existing st1. pose proof (setUID_run k existing (extracted a) st1) as Hrun.
    rewrite Herr in Hrun. rewrite Hrun. reflexivity.
  - rewrite (Mutate_error_run k p a st v ErrNoUID Hv Hunset Hname Herr). reflexivity.
Qed.

(** C7. When the extracted name is mapped to a non-empty text that is not a
    decimal 64-bit signed integer, [setUID] fails with the error of
    [strconv.ParseInt] and [Mutate] returns a nil Pod and the error. *)
Theorem Mutate_malformed_value k data (raw : string) (p : loc) a st (v : PodValue) :
  store_data k data ->
  extracted a <> "" ->
  data !! extracted a = Some raw ->
  raw <> "" ->
  decimal_int64 raw = None ->
  pod_value st p = Some v ->
  runAsUser_of v = None ->
  exists e,
    snd (ParseInt raw) = Some e
    /\ (forall (existing : option loc) st1,
          fst (setUID k existing (extracted a) st1) = Ret (None, Some (ErrConvertUID e)))
    /\ fst (Mutate k (Some p) (Some a) st)
       = Ret (None, Some (ErrSetRunAsUser (ErrConvertUID e))).
Proof.
  intros Hstore Hname Hraw Hne Hbad Hv Hunset.
  destruct (resolution_error_malformed k data (extracted a) raw Hstore Hraw Hne Hbad)
    as (e & Hparse & Herr).
  exists e. split; [exact Hparse|]. split.
  - intros existing st1. pose proof (setUID_run k existing (extracted a) st1) as Hrun.
    rewrite Herr in Hrun. rewrite Hrun. reflexivity.
  - rewrite (Mutate_error_run k p a st v _ Hv Hunset Hname Herr). reflexivity.
Qed.

(** C3, amended. For a user name [system:serviceaccount:<ns>:<name>] of
    four segments and a Pod without [RunAsUser], the extracted name is
    [<name>]. When [<name>] is not empty, [setUID] is called: it starts
    building the client, the only key it reads from the data is [<name>],
    and it does read it whenever the client is built and the ConfigMap is
    fetched. *)
Theorem Mutate_queries_extracted_name k (ns name : string) (p : loc) st (v : PodValue) :
  CountByte ns colon = O ->
  CountByte name colon = O ->
  pod_value st p = Some v ->
  runAsUser_of v = None ->
  let a := mkAdmissionRequest
             (mkUserInfo (serviceaccount_username ns name)) in
  extracted a = name
  /\ (name <> "" ->
      exists t,
        trace (snd (Mutate k (Some p) (Some a) st)) = (trace st ++ t)%list
        /\ In CallInClusterConfig t
        /\ (forall key, In (ReadData key) t -> key = name)
        /\ (forall data, store_data k data -> In (ReadData name) t)).
Proof.
  intros Hns Hn Hv Hunset a.
  pose proof (extracted_serviceaccount ns name Hns Hn) as Hex.
  fold a in Hex. split; [exact Hex|]. intros Hname.
  exists (resolution_trace k a). split; [|split; [|split]].
  - apply Mutate_resolution_trace with (v := v); [assumption | assumption|].
    rewrite Hex. exact Hname.
  - unfold resolution_trace. apply in_or_app. right.
    destruct (resolution_log_starts k (extracted a)) as (t & ->). left. reflexivity.
  - intros key Hin. unfold resolution_trace in Hin. apply in_app_or in Hin.
    destruct Hin as [Hin | Hin].
    + pose proof (no_store_access_In _ _ (decision_log_no_store a) Hin) as Hs.
      discriminate Hs.
    + rewrite <- Hex. apply (resolution_log_keys k), Hin.
  - intros data Hstore. unfold resolution_trace. apply in_or_app. right.
    rewrite <- Hex. apply (resolution_log_reads k data), Hstore.
Qed.

(** C9. A Pod returned by [Mutate] that has a [RunAsUser] is left as it is
    by a second application, whatever the request and the cluster, and the
    mapping store is not touched; and the Pod returned when [Mutate] did
    resolve a user id has a [RunAsUser]. *)
Theorem Mutate_idempotent k (p : loc) a st (v : PodValue) (p1 : loc) st1 :
  pod_value st p = Some v ->
  Mutate k (Some p) (Some a) st = (Ret (Some p1, None), st1) ->
  (runAsUser_of v = None -> extracted a <> "" ->
     exists v1 uid, pod_value st1 p1 = Some v1 /\ runAsUser_of v1 = Some uid)
  /\ (forall v1 uid, pod_value st1 p1 = Some v1 -> runAsUser_of v1 = Some uid ->
      forall k' a', returns_unchanged (Mutate k' (Some p1) (Some a') st1) st1 p1 v1).
Proof.
  intros Hv Hout. split.
  - intros Hunset Hname.
    destruct (Mutate_resolution_cases k p a st v Hv Hunset Hname)
      as [(e & _ & Hrun) | [(n & _ & _ & Hrun) | (n & sf & _ & Hsc & Hrun)]];
      rewrite Hrun in Hout; try discriminate Hout.
    injection Hout as <- <-.
    exists (mkPV (Some (mkSCV (Some n) sf)) (pod_fields v)), n.
    split; [|reflexivity].
    unfold pod_value, applied_state. simpl.
    rewrite lookup_snoc_new. simpl. rewrite lookup_snoc_new. simpl.
    rewrite lookup_snoc_new. reflexivity.
  - intros v1 uid Hv1 Hset k' a'.
    apply Mutate_keeps_existing_RunAsUser_aux with (uid := uid); assumption.
Qed.

(** C8. [Mutate] leaves every object of the heap it was given as it was,
    the Pod it was called on in particular; when [setUID] fails, of whatever
    kind the error, [Mutate] returns a nil Pod and the error; and a Pod is
    only ever returned with a nil error, and then it is either equal to the
    original or the original with [RunAsUser] set to the resolved value. *)
Theorem Mutate_no_partial_mutation k (pod : option loc) (a : option AdmissionRequest) st :
  let out := Mutate k pod a st in
  preserved st (snd out)
  /\ (forall p v, pod = Some p -> pod_value st p = Some v ->
        pod_value (snd out) p = Some v)
  /\ (forall p v a' e,
        pod = Some p -> a = Some a' -> pod_value st p = Some v ->
        runAsUser_of v = None -> extracted a' <> "" ->
        resolution_error k (extracted a') = Some e ->
        fst out = Ret (None, Some (ErrSetRunAsUser e)))
  /\ (forall r e, fst out = Ret (r, Some e) -> r = None)
  /\ (forall p' err, fst out = Ret (Some p', err) ->
        err = None
        /\ exists p v, pod = Some p /\ pod_value st p = Some v
           /\ (pod_value (snd out) p' = Some v
               \/ exists sf n a',
                    a = Some a'
                    /\ securityContext v = Some (mkSCV None sf)
                    /\ resolves k (extracted a') n
                    /\ pod_value (snd out) p'
                       = Some (mkPV (Some (mkSCV (Some n) sf)) (pod_fields v)))).
Proof.
  intros out.
  assert (Hpres : preserved st (snd out)).
  { unfold out. destruct (Mutate_outcome k pod a st); cbn [snd].
    - assumption.
    - eapply preserved_trans; [apply preserved_copy_state | apply preserved_logged].
    - apply preserved_failed_state.
    - apply preserved_applied_state. }
  split; [exact Hpres|]. split; [|split; [|split]].
  - intros p v _ Hv. apply pod_value_preserved with (st := st); assumption.
  - intros p v a' e -> -> Hv Hunset Hname Herr. unfold out.
    rewrite (Mutate_error_run k p a' st v e Hv Hunset Hname Herr). reflexivity.
  - intros r e. unfold out. destruct (Mutate_outcome k pod a st); cbn [fst];
      intros Hout; try discriminate Hout.
    injection Hout as <- _. reflexivity.
  - intros p' err. unfold out. destruct (Mutate_outcome k pod a st) as
      [st' Hp | p v a' Hpod Ha Hv Hcase | p v a' e Hpod Ha Hv Hu Hname Herr
       | p v a' sf n Hpod Ha Hv Hsc Hname Hres]; cbn [fst snd];
      intros Hout; try discriminate Hout.
    + injection Hout as <- <-. split; [reflexivity|].
      exists p, v. split; [exact Hpod|]. split; [exact Hv|]. left.
      rewrite pod_value_logged. apply pod_value_copy_state.
    + injection Hout as <- <-. split; [reflexivity|].
      exists p, v. split; [exact Hpod|]. split; [exact Hv|]. right.
      exists sf, n, a'. split; [exact Ha|]. split; [exact Hsc|].
      split; [exact Hres|]. apply pod_value_applied_state.
Qed.

End Runs.

(** What [Mutate] does on the resolution path when the mapped value is well
    formed: with a security context it sets [RunAsUser], without one it
    panics. *)
Lemma Mutate_sets_RunAsUser {PodFields SCFields : Type} k data (raw : string) (n : Z)
    (p : loc) a (st : state PodFields SCFields) v (sf : SCFields) :
  store_data k data ->
  extracted a <> "" ->
  data !! extracted a = Some raw ->
  decimal_int64 raw = Some n ->
  pod_value st p = Some v ->
  securityContext v = Some (mkSCV None sf) ->
  exists p',
    fst (Mutate k (Some p) (Some a) st) = Ret (Some p', None)
    /\ pod_value (snd (Mutate k (Some p) (Some a) st)) p'
       = Some (mkPV (Some (mkSCV (Some n) sf)) (pod_fields v))
    /\ pod_value (snd (Mutate k (Some p) (Some a) st)) p = Some v.
Proof.
  intros Hstore Hname Hraw Hdec Hv Hsc.
  pose proof (resolves_intro k data (extracted a) raw n Hstore Hraw Hdec) as Hres.
  rewrite (Mutate_applied_run k p a st v sf n Hv Hsc Hname Hres). cbn [fst snd].
  exists (length (pods st)). split; [reflexivity|]. split.
  - apply pod_value_applied_state.
  - apply pod_value_preserved with (st := st); [apply preserved_applied_state | exact Hv].
Qed.

Lemma Mutate_nil_SecurityContext {PodFields SCFields : Type} k data (raw : string) (n : Z)
    (p : loc) a (st : state PodFields SCFields) v :
  store_data k data ->
  extracted a <> "" ->
  data !! extracted a = Some raw ->
  decimal_int64 raw = Some n ->
  pod_value st p = Some v ->
  securityContext v = None ->
  fst (Mutate k (Some p) (Some a) st) = Panic.
Proof.
  intros Hstore Hname Hraw Hdec Hv Hsc.
  pose proof (resolves_intro k data (extracted a) raw n Hstore Hraw Hdec) as Hres.
  rewrite (Mutate_panic_run k p a st v n Hv Hsc Hname Hres). reflexivity.
Qed.

Lemma cluster_with_store_data (data : gmap string string) :
  store_data (cluster_with data) data.
Proof.
  split; [reflexivity|]. split; [reflexivity|].
  exists (mkConfigMap data). split; reflexivity.
Qed.

(** C1. On a Pod without security context, for the ServiceAccount
    [build-bot] mapped to [1001], every step of [setUID] up to the parse
    succeeds and the assignment to [existing.RunAsUser] dereferences nil:
    [Mutate] panics, no security context is created and no Pod is
    returned. *)
Theorem Mutate_panics_without_SecurityContext :
  pod_value pod_without_context O = Some (mkPV None tt)
  /\ extracted build_bot = "build-bot"
  /\ resolves (cluster_with build_bot_mapping) "build-bot" 1001
  /\ fst (Mutate (cluster_with build_bot_mapping) (Some O) (Some build_bot)
            pod_without_context) = Panic.
Proof.
  split; [reflexivity|]. split; [reflexivity|]. split.
  - apply resolves_intro with (data := build_bot_mapping) (raw := "1001").
    + apply cluster_with_store_data.
    + reflexivity.
    + reflexivity.
  - apply Mutate_nil_SecurityContext
      with (data := build_bot_mapping) (raw := "1001") (n := 1001) (v := mkPV None tt).
    + apply cluster_with_store_data.
    + discriminate.
    + reflexivity.
    + reflexivity.
    + reflexivity.
    + reflexivity.
Qed.

(** C2. With the mapping [{"build-bot": "1001"}] and a request from
    [build-bot], a Pod with an empty security context comes back with
    [RunAsUser = 1001], but a Pod without security context, which has no
    [RunAsUser] either, makes [Mutate] panic. *)
Theorem Mutate_build_bot :
  (fst (Mutate (cluster_with build_bot_mapping) (Some O) (Some build_bot)
          pod_with_empty_context) = Ret (Some 1%nat, None)
   /\ pod_value (snd (Mutate (cluster_with build_bot_mapping) (Some O) (Some build_bot)
                        pod_with_empty_context)) 1
      = Some (mkPV (Some (mkSCV (Some 1001) tt)) tt))
  /\ runAsUser_of (mkPV (SCFields := unit) None tt) = None
  /\ fst (Mutate (cluster_with build_bot_mapping) (Some O) (Some build_bot)
            pod_without_context) = Panic.
Proof.
  split; [split|split]; vm_compute; reflexivity.
Qed.

(** C3. With an empty last segment the user name still has four segments
    and the extracted name is the segment, but [Mutate] takes the empty
    name for "no ServiceAccount" and never reads the data. *)
Lemma Mutate_empty_name_not_queried :
  let a := request_from (serviceaccount_username "default" "") in
  CountByte "default" colon = O
  /\ CountByte "" colon = O
  /\ pod_value pod_with_empty_context O = Some empty_context_value
  /\ runAsUser_of empty_context_value = None
  /\ ~ (extracted a = ""
        /\ In (ReadData "")
             (trace (snd (Mutate (cluster_with build_bot_mapping) (Some O) (Some a)
                            pod_with_empty_context)))).
Proof.
  cbv zeta. repeat (split; [reflexivity|]).
  intros [_ Hin]. vm_compute in Hin. destruct Hin as [Hin | []]. discriminate Hin.
Qed.

(** *** Instances *)

Lemma Mutate_keeps_existing_RunAsUser_witness :
  pod_value pod_with_uid O = Some uid_value
  /\ runAsUser_of uid_value = Some 500
  /\ returns_unchanged
       (Mutate (cluster_with build_bot_mapping) (Some O) (Some build_bot) pod_with_uid)
       pod_with_uid O uid_value.
Proof.
  split; [reflexivity|]. split; [reflexivity|].
  apply (Mutate_keeps_existing_RunAsUser (cluster_with build_bot_mapping) O build_bot
           pod_with_uid uid_value 500); reflexivity.
Defined.

Lemma Mutate_without_ServiceAccount_witness :
  HasPrefix (Username (UserInfo_ (request_from "alice"))) "system:serviceaccount:" = false
  /\ pod_value pod_with_empty_context O = Some empty_context_value
  /\ fst (getServiceAccount (Some (request_from "alice")) pod_with_empty_context) = Ret ""
  /\ returns_unchanged
       (Mutate (cluster_with build_bot_mapping) (Some O) (Some (request_from "alice"))
          pod_with_empty_context)
       pod_with_empty_context O empty_context_value.
Proof.
  split; [reflexivity|]. split; [reflexivity|].
  apply (Mutate_without_ServiceAccount (cluster_with build_bot_mapping) O
           (request_from "alice") pod_with_empty_context empty_context_value).
  - left. reflexivity.
  - reflexivity.
Defined.

Lemma Mutate_error_only_on_resolution_witness :
  pod_value pod_with_uid O = Some uid_value
  /\ (forall r e,
        fst (Mutate (cluster_with ∅) (Some O) (Some build_bot) pod_with_uid)
        = Ret (r, Some e) ->
        extracted build_bot <> "" /\ runAsUser_of uid_value = None)
  /\ (runAsUser_of uid_value <> None \/ extracted build_bot = "" ->
      exists p',
        fst (Mutate (cluster_with ∅) (Some O) (Some build_bot) pod_with_uid)
        = Ret (Some p', None)).
Proof.
  split; [reflexivity|].
  apply (Mutate_error_only_on_resolution (cluster_with ∅) O build_bot pod_with_uid
           uid_value).
  reflexivity.
Defined.

Lemma Mutate_unmapped_principal_witness :
  let a := request_from "system:serviceaccount:default:ghost" in
  extracted a = "ghost"
  /\ build_bot_mapping !! "ghost" = None
  /\ (forall (existing : option loc) (st1 : state unit unit),
        fst (setUID (cluster_with build_bot_mapping) existing (extracted a) st1)
        = Ret (None, Some ErrNoUID))
  /\ fst (Mutate (cluster_with build_bot_mapping) (Some O) (Some a)
            pod_with_empty_context)
     = Ret (None, Some (ErrSetRunAsUser ErrNoUID)).
Proof.
  cbv zeta. split; [reflexivity|]. split; [reflexivity|].
  apply (Mutate_unmapped_principal (cluster_with build_bot_mapping) build_bot_mapping O
           (request_from "system:serviceaccount:default:ghost")
           pod_with_empty_context empty_context_value).
  - apply cluster_with_store_data.
  - discriminate.
  - left. reflexivity.
  - reflexivity.
  - reflexivity.
Defined.

Lemma Mutate_malformed_value_witness :
  let data : gmap string string := {[ "build-bot" := "not-a-number" ]} in
  data !! extracted build_bot = Some "not-a-number"
  /\ decimal_int64 "not-a-number" = None
  /\ exists e,
       snd (ParseInt "not-a-number") = Some e
       /\ (forall (existing : option loc) (st1 : state unit unit),
             fst (setUID (cluster_with data) existing (extracted build_bot) st1)
             = Ret (None, Some (ErrConvertUID e)))
       /\ fst (Mutate (cluster_with data) (Some O) (Some build_bot) pod_with_empty_context)
          = Ret (None, Some (ErrSetRunAsUser (ErrConvertUID e))).
Proof.
  cbv zeta. split; [reflexivity|]. split; [reflexivity|].
  apply (Mutate_malformed_value (cluster_with {[ "build-bot" := "not-a-number" ]})
           {[ "build-bot" := "not-a-number" ]} "not-a-number" O build_bot
           pod_with_empty_context empty_context_value).
  - apply cluster_with_store_data.
  - discriminate.
  - reflexivity.
  - discriminate.
  - reflexivity.
  - reflexivity.
  - reflexivity.
Defined.

Lemma Mutate_queries_extracted_name_witness :
  let a := request_from (serviceaccount_username "default" "build-bot") in
  let k := cluster_with build_bot_mapping in
  extracted a = "build-bot"
  /\ ("build-bot" <> "" ->
      exists t,
        trace (snd (Mutate k (Some O) (Some a) pod_with_empty_context))
        = (trace pod_with_empty_context ++ t)%list
        /\ In CallInClusterConfig t
        /\ (forall key, In (ReadData key) t -> key = "build-bot")
        /\ (forall data, store_data k data -> In (ReadData "build-bot") t)).
Proof.
  apply (Mutate_queries_extracted_name (cluster_with build_bot_mapping)
           "default" "build-bot" O pod_with_empty_context empty_context_value);
    reflexivity.
Defined.

Lemma Mutate_idempotent_witness :
  let k := cluster_with build_bot_mapping in
  let st1 := snd (Mutate k (Some O) (Some build_bot) pod_with_empty_context) in
  Mutate k (Some O) (Some build_bot) pod_with_empty_context = (Ret (Some 1%nat, None), st1)
  /\ (runAsUser_of empty_context_value = None -> extracted build_bot <> "" ->
      exists v1 uid, pod_value st1 1 = Some v1 /\ runAsUser_of v1 = Some uid)
  /\ (forall v1 uid, pod_value st1 1 = Some v1 -> runAsUser_of v1 = Some uid ->
      forall k' a', returns_unchanged (Mutate k' (Some 1%nat) (Some a') st1) st1 1 v1).
Proof.
  cbv zeta.
  assert (Hrun : Mutate (cluster_with build_bot_mapping) (Some O) (Some build_bot)
                   pod_with_empty_context
                 = (Ret (Some 1%nat, None),
                    snd (Mutate (cluster_with build_bot_mapping) (Some O) (Some build_bot)
                           pod_with_empty_context)))
    by (vm_compute; reflexivity).
  split; [exact Hrun|].
  apply (Mutate_idempotent (cluster_with build_bot_mapping) O build_bot
           pod_with_empty_context empty_context_value 1 _ eq_refl Hrun).
Defined.

Lemma Mutate_no_partial_mutation_witness :
  let out := Mutate (cluster_with ∅) (Some O) (Some build_bot) pod_with_empty_context in
  preserved pod_with_empty_context (snd out)
  /\ fst out = Ret (None, Some (ErrSetRunAsUser ErrNoUID)).
Proof.
  cbv zeta.
  destruct (Mutate_no_partial_mutation (cluster_with ∅) (Some O) (Some build_bot)
              pod_with_empty_context) as (Hpres & _ & Hfail & _).
  split; [exact Hpres|].
  apply (Hfail O empty_context_value build_bot ErrNoUID); try reflexivity.
  discriminate.
Defined.

(** ** More on [strings.Split] and [getServiceAccount] *)

Module SplitFacts.
Import GoStringsFacts.

Lemma append_empty_r (s : string) : s ++ "" = s.
Proof.
  induction s as [|x s IH]; [reflexivity|].
  change (String x (s ++ "") = String x s). rewrite IH. reflexivity.
Qed.

Lemma IndexByte_present (s : string) (c : ascii) :
  CountByte s c <> O ->
  exists a b, s = a ++ String c b /\ CountByte a c = O.
Proof.
  induction s as [|x s IH]; simpl; [congruence|].
  destruct (Ascii.eqb x c) eqn:E.
  - intros _. apply Ascii.eqb_eq in E. subst x. exists "", s. split; reflexivity.
  - intros H. destruct (IH H) as (a & b & -> & Ha).
    exists (String x a), b. split; [reflexivity|]. simpl. rewrite E. exact Ha.
Qed.

Lemma CountByte_cut (a b : string) (c : ascii) :
  CountByte a c = O -> CountByte (a ++ String c b) c = S (CountByte b c).
Proof.
  intros Ha. rewrite CountByte_app, Ha. simpl. rewrite Ascii.eqb_refl. reflexivity.
Qed.

(** The loop run for as many cuts as there are separators. *)
Lemma genSplit_loop_all (c : ascii) (n : nat) : forall s,
  CountByte s c = n ->
  Join (genSplit_loop n s c) c = s
  /\ length (genSplit_loop n s c) = S n
  /\ Forall (fun seg => CountByte seg c = O) (genSplit_loop n s c).
Proof.
  induction n as [|n IH]; intros s Hs.
  - simpl. split; [|split].
    + apply append_empty_r.
    + reflexivity.
    + constructor; [exact Hs | constructor].
  - destruct (IndexByte_present s c ltac:(rewrite Hs; discriminate)) as (a & b & -> & Ha).
    rewrite (CountByte_cut a b c Ha) in Hs. injection Hs as Hb.
    rewrite (genSplit_loop_cut n a b c Ha).
    destruct (IH b Hb) as (Hjoin & Hlen & Hfree). split; [|split].
    + destruct (genSplit_loop n b c) as [|e rest]; [discriminate Hlen|].
      simpl in *. rewrite Hjoin. reflexivity.
    + simpl. rewrite Hlen. reflexivity.
    + constructor; assumption.
Qed.

Lemma cut_injective (c : ascii) (a : string) : forall a' b b',
  CountByte a c = O -> CountByte a' c = O ->
  a ++ String c b = a' ++ String c b' -> a = a' /\ b = b'.
Proof.
  induction a as [|x a IH]; intros [|x' a'] b b'; simpl.
  - intros _ _ [= <-]. split; reflexivity.
  - intros _ H [= <- _]. rewrite Ascii.eqb_refl in H. discriminate H.
  - intros H _ [= -> _]. rewrite Ascii.eqb_refl in H. discriminate H.
  - destruct (Ascii.eqb x c); [discriminate|].
    destruct (Ascii.eqb x' c); [discriminate|].
    intros Ha Ha' [= <- E]. destruct (IH a' b b' Ha Ha' E) as [-> ->].
    split; reflexivity.
Qed.

Lemma HasPrefix_inv (p : string) : forall s,
  HasPrefix s p = true -> exists r, s = p ++ r.
Proof.
  unfold HasPrefix. induction p as [|y p IH]; intros s H.
  - exists s. reflexivity.
  - apply andb_true_iff in H as [Hlen Heq].
    destruct s as [|x s]; [simpl in Hlen; discriminate Hlen|].
    simpl in Heq. destruct (Ascii.eqb_spec x y) as [->|]; [|discriminate Heq].
    destruct (IH s) as (r & ->).
    + apply andb_true_iff. split; [exact Hlen | exact Heq].
    + exists r. reflexivity.
Qed.

End SplitFacts.

(** X1. [strings.Split] cuts at every separator: joining the segments with
    the separator gives the string back, there is one segment more than
    there are separators, and no segment contains the separator. *)
Theorem Split_Join (s : string) (sep : ascii) :
  Join (Split s sep) sep = s
  /\ length (Split s sep) = S (CountByte s sep)
  /\ Forall (fun seg => CountByte seg sep = O) (Split s sep).
Proof. unfold Split. apply SplitFacts.genSplit_loop_all. reflexivity. Qed.

(** The user names for which [getServiceAccount] returns a name. *)
Lemma extracted_inv (a : AdmissionRequest) :
  extracted a <> "" ->
  exists ns,
    Username (UserInfo_ a) = serviceaccount_username ns (extracted a)
    /\ CountByte ns colon = O
    /\ CountByte (extracted a) colon = O.
Proof.
  unfold extracted, getServiceAccount.
  destruct (negb (Username (UserInfo_ a) =? "")%string) eqn:Hne; simpl;
    [|intros H; exfalso; apply H; reflexivity].
  destruct (HasPrefix (Username (UserInfo_ a)) "system:serviceaccount:") eqn:Hp;
    [|intros H; exfalso; apply H; reflexivity].
  pose proof (SplitFacts.genSplit_loop_all colon _ (Username (UserInfo_ a)) eq_refl)
    as (Hjoin & _ & Hfree).
  fold (Split (Username (UserInfo_ a)) colon) in Hjoin, Hfree.
  destruct (Split (Username (UserInfo_ a)) colon) as [|s1 [|s2 [|s3 [|s4 [|s5 l]]]]];
    try (intros H; exfalso; apply H; reflexivity).
  simpl. intros _.
  apply Forall_cons in Hfree as [H1 Hfree]. apply Forall_cons in Hfree as [H2 Hfree].
  apply Forall_cons in Hfree as [H3 Hfree]. apply Forall_cons in Hfree as [H4 _].
  destruct (SplitFacts.HasPrefix_inv _ _ Hp) as (r & Hr).
  simpl in Hjoin. rewrite Hr in Hjoin.
  change ("system:serviceaccount:" ++ r)
    with ("system" ++ String colon ("serviceaccount" ++ String colon r)) in Hjoin.
  change (String ":" (s2 ++ String ":" (s3 ++ String ":" (s4 ++ ""))))
    with (String colon (s2 ++ String colon (s3 ++ String colon (s4 ++ "")))) in Hjoin.
  destruct (SplitFacts.cut_injective colon s1 "system" _ _ H1 eq_refl Hjoin) as [_ E2].
  destruct (SplitFacts.cut_injective colon s2 "serviceaccount" _ _ H2 eq_refl E2)
    as [_ E3].
  exists s3. split; [|split; assumption].
  rewrite Hr, <- E3. unfold serviceaccount_username.
  rewrite SplitFacts.append_empty_r. reflexivity.
Qed.

(** X2. [getServiceAccount] returns a non-empty name exactly for the user
    names [system:serviceaccount:<ns>:<name>] in which neither [<ns>] nor
    [<name>] contains a colon, and the name it returns is [<name>]; the
    namespace may be anything, the empty string included. *)
Theorem getServiceAccount_nonempty_iff (a : AdmissionRequest) (name : string) :
  name <> "" ->
  (extracted a = name
   <-> exists ns,
         Username (UserInfo_ a) = serviceaccount_username ns name
         /\ CountByte ns colon = O /\ CountByte name colon = O).
Proof.
  intros Hname. split.
  - intros <-. apply extracted_inv, Hname.
  - intros (ns & Hu & Hns & Hn). destruct a as [[u]]. simpl in Hu. subst u.
    apply extracted_serviceaccount; assumption.
Qed.

Lemma getServiceAccount_nonempty_iff_witness :
  "build-bot" <> ""
  /\ (extracted build_bot = "build-bot"
      <-> exists ns,
            Username (UserInfo_ build_bot) = serviceaccount_username ns "build-bot"
            /\ CountByte ns colon = O /\ CountByte "build-bot" colon = O).
Proof.
  split; [discriminate|].
  apply (getServiceAccount_nonempty_iff build_bot "build-bot"). discriminate.
Defined.

(** X3. [strconv.ParseInt(s, 10, 64)] returns a value and no error exactly
    when [s] is a decimal 64-bit signed integer (an optional sign, one or
    more decimal digits, a value between -2^63 and 2^63 - 1), and the value
    is that integer; on every other string it returns an error. *)
Theorem ParseInt_decimal_int64 (s : string) :
  (forall n, ParseInt s = (n, None) <-> decimal_int64 s = Some n)
  /\ (decimal_int64 s = None <-> exists v e, ParseInt s = (v, Some e)).
Proof.
  split.
  - intros n. split; [apply StrconvFacts.ParseInt_ok_inv | apply StrconvFacts.ParseInt_valid].
  - split; [apply StrconvFacts.ParseInt_invalid|].
    intros (v & e & H). destruct (decimal_int64 s) as [n|] eqn:Hd; [|reflexivity].
    rewrite (StrconvFacts.ParseInt_valid s n Hd) in H. discriminate H.
Qed.

(** ** More on [initClient], [getConfigMap] and [setUID] *)

Section Resolution.

Context {PodFields SCFields : Type}.
Local Abbreviation state := (state PodFields SCFields).

Implicit Types (st : state) (k : cluster) (a : AdmissionRequest) (t : list event).

Lemma assign_uid_run (existing : option loc) (n : Z) st :
  assign_uid existing n st
  = match existing with
    | None =>
        (Panic, mkState (pods st) (secctxs st) (int64s st ++ [n]) (trace st))
    | Some l =>
        match secctxs st !! l with
        | None =>
            (Panic, mkState (pods st) (secctxs st) (int64s st ++ [n]) (trace st))
        | Some sc =>
            (Ret (Some l, None),
             mkState (pods st)
               (<[l := mkPodSecurityContext (Some (length (int64s st))) (scFields sc)]>
                  (secctxs st))
               (int64s st ++ [n]) (trace st))
        end
    end.
Proof.
  destruct st as [ps ss ns tr].
  unfold assign_uid, bind, new_int64, load_sc, store_sc, ret.
  destruct existing as [l|]; [|reflexivity]. simpl.
  destruct (ss !! l) as [sc|] eqn:E; simpl; [rewrite E|]; reflexivity.
Qed.

Lemma resolution_log_script k (serviceAccount : string) :
  exists uid, resolution_log k serviceAccount `prefix_of` setUID_script serviceAccount uid.
Proof.
  unfold resolution_log, setUID, initClient, getConfigMap, read_data, bind, emit, ret,
    setUID_script.
  destruct k as [icc nfc get]. simpl.
  destruct icc; simpl; [exists ""; eexists; reflexivity|].
  destruct nfc; simpl; [exists ""; eexists; reflexivity|].
  destruct (get namespace configMapName) as [msg|cm]; simpl;
    [exists ""; eexists; reflexivity|].
  exists (default "" (Data cm !! serviceAccount)).
  destruct (String.eqb (default "" (Data cm !! serviceAccount)) ""); simpl;
    [eexists; reflexivity|].
  destruct (ParseInt (default "" (Data cm !! serviceAccount))) as [n [c|]]; simpl;
    exists []; reflexivity.
Qed.

Lemma setUID_trace k (existing : option loc) (serviceAccount : string) st :
  trace (snd (setUID k existing serviceAccount st))
  = (trace st ++ resolution_log k serviceAccount)%list.
Proof.
  pose proof (setUID_run k existing serviceAccount st) as Hrun.
  destruct (resolution_error k serviceAccount) as [e|].
  - rewrite Hrun. reflexivity.
  - destruct Hrun as (n & _ & ->). rewrite assign_uid_run.
    destruct existing as [l|]; [|reflexivity].
    simpl. destruct (secctxs st !! l); reflexivity.
Qed.

(** X4. In one call, [setUID] makes its calls in a fixed order and none of
    them twice: what it adds to the trace is a prefix of "in-cluster
    config, new client, get the ConfigMap [uid-mapping] of [default], read
    the name, log the UID, read the name again" -- whatever the cluster
    answers and whatever [existing] is. *)
Theorem setUID_calls_in_order k (existing : option loc) (serviceAccount : string) st :
  exists t uid,
    trace (snd (setUID k existing serviceAccount st)) = (trace st ++ t)%list
    /\ t `prefix_of` setUID_script serviceAccount uid.
Proof.
  destruct (resolution_log_script k serviceAccount) as (uid & Hpre).
  exists (resolution_log k serviceAccount), uid. split; [apply setUID_trace | exact Hpre].
Qed.

(** X5. [setUID] stops at the first call that fails, and the error tells
    which: a failed in-cluster config is not followed by any other call, a
    failed client construction is not followed by a fetch, and a failed
    fetch is not followed by a read of the data. In each case the heap is
    as it was. *)
Theorem setUID_stops_at_first_failure k (existing : option loc)
    (serviceAccount : string) st :
  (forall msg, InClusterConfig k = Some msg ->
     setUID k existing serviceAccount st
     = (Ret (None, Some (ErrInitClient (ErrInClusterConfig (ExternalError msg)))),
        logged st [CallInClusterConfig]))
  /\ (forall msg, InClusterConfig k = None -> NewForConfig k = Some msg ->
     setUID k existing serviceAccount st
     = (Ret (None, Some (ErrInitClient (ErrNewForConfig (ExternalError msg)))),
        logged st [CallInClusterConfig; CallNewForConfig]))
  /\ (forall msg, InClusterConfig k = None -> NewForConfig k = None ->
     ConfigMapsGet k namespace configMapName = inl msg ->
     setUID k existing serviceAccount st
     = (Ret (None, Some (ErrSetUID (ErrGetConfigMap (ExternalError msg)))),
        logged st [CallInClusterConfig; CallNewForConfig;
                   CallConfigMapsGet namespace configMapName])).
Proof.
  destruct st as [ps ss ns tr].
  unfold setUID, initClient, getConfigMap, bind, emit, ret, logged. simpl.
  split; [|split].
  - intros msg ->. reflexivity.
  - intros msg -> ->. simpl. rewrite <- !app_assoc. reflexivity.
  - intros msg -> -> Hget. simpl. rewrite Hget. simpl. rewrite <- !app_assoc. reflexivity.
Qed.

(** X6. When [setUID] returns an error it returns a nil pointer with it, and
    the heap is as it was: no Pod, security context or [int64] has been
    written or allocated, whatever [existing] points to. *)
Theorem setUID_error_leaves_heap k (existing : option loc) (serviceAccount : string)
    st (r : option loc) (e : error) :
  fst (setUID k existing serviceAccount st) = Ret (r, Some e) ->
  r = None
  /\ pods (snd (setUID k existing serviceAccount st)) = pods st
  /\ secctxs (snd (setUID k existing serviceAccount st)) = secctxs st
  /\ int64s (snd (setUID k existing serviceAccount st)) = int64s st.
Proof.
  pose proof (setUID_run k existing serviceAccount st) as Hrun.
  destruct (resolution_error k serviceAccount) as [e'|].
  - rewrite Hrun. simpl. intros [= <- _]. repeat split.
  - destruct Hrun as (n & _ & ->). rewrite assign_uid_run.
    destruct existing as [l|]; [|simpl; discriminate].
    simpl. destruct (secctxs st !! l); simpl; discriminate.
Qed.

(** X7. When the value resolves, [setUID] writes through the pointer it was
    given and returns that pointer: the security context there gets a
    [RunAsUser] pointing to a new cell that holds the value, whatever its
    [RunAsUser] was before, and keeps its other fields; no other security
    context, no Pod and no [int64] cell that existed is changed. Every Pod
    that points to this security context therefore has the new
    [RunAsUser]. *)
Theorem setUID_assigns_in_place k (l : loc) (serviceAccount : string) (n : Z) st
    (sc : PodSecurityContext SCFields) :
  resolves k serviceAccount n ->
  secctxs st !! l = Some sc ->
  let out := setUID k (Some l) serviceAccount st in
  fst out = Ret (Some l, None)
  /\ pods (snd out) = pods st
  /\ int64s (snd out) = (int64s st ++ [n])%list
  /\ secctxs (snd out) !! l
     = Some (mkPodSecurityContext (Some (length (int64s st))) (scFields sc))
  /\ (forall l', l' <> l -> secctxs (snd out) !! l' = secctxs st !! l')
  /\ (forall p pd, pods st !! p = Some pd -> SecurityContext (Spec pd) = Some l ->
        pod_value (snd out) p
        = Some (mkPV (Some (mkSCV (Some n) (scFields sc))) (podFields pd))).
Proof.
  intros Hres Hl out.
  pose proof (setUID_run k (Some l) serviceAccount st) as Hrun.
  rewrite (resolves_no_error _ _ _ Hres) in Hrun.
  destruct Hrun as (m & Hm & Hrun).
  rewrite (resolves_unique _ _ _ _ Hm Hres) in Hrun.
  rewrite assign_uid_run in Hrun. simpl in Hrun. rewrite Hl in Hrun.
  unfold out. rewrite Hrun. cbn [fst snd pods secctxs int64s].
  assert (Hlt : (l < length (secctxs st))%nat) by (eapply lookup_lt_Some; exact Hl).
  split; [reflexivity|]. split; [reflexivity|]. split; [reflexivity|].
  split; [apply list_lookup_insert_eq, Hlt|]. split.
  - intros l' Hne. apply list_lookup_insert_ne. congruence.
  - intros p pd Hpd Hscp. unfold pod_value. cbn [pods]. rewrite Hpd, Hscp.
    unfold sc_value. cbn [secctxs]. rewrite list_lookup_insert_eq by exact Hlt.
    cbn [RunAsUser scFields]. unfold int64_value. cbn [int64s].
    rewrite lookup_snoc_new. reflexivity.
Qed.

(** X8. With the data of the mapping store fetched, [setUID] on a security
    context succeeds exactly when the name is mapped to the text of a
    decimal 64-bit signed integer; a missing key, an empty value and any
    other text all make it fail. *)
Theorem setUID_succeeds_iff k data (l : loc) (serviceAccount : string) st
    (sc : PodSecurityContext SCFields) :
  store_data k data ->
  secctxs st !! l = Some sc ->
  (fst (setUID k (Some l) serviceAccount st) = Ret (Some l, None)
   <-> exists raw n, data !! serviceAccount = Some raw /\ decimal_int64 raw = Some n).
Proof.
  intros Hstore Hl. split.
  - intros Hout.
    pose proof (setUID_run k (Some l) serviceAccount st) as Hrun.
    destruct (resolution_error k serviceAccount) as [e|].
    + rewrite Hrun in Hout. discriminate Hout.
    + destruct Hrun as (n & (_ & _ & cm & raw & Hget & Hraw & _ & Hparse) & _).
      destruct Hstore as (_ & _ & cm' & Hget' & <-).
      rewrite Hget in Hget'. injection Hget' as <-.
      exists raw, n. split; [exact Hraw|]. apply StrconvFacts.ParseInt_ok_inv, Hparse.
  - intros (raw & n & Hraw & Hdec).
    pose proof (resolves_intro k data serviceAccount raw n Hstore Hraw Hdec) as Hres.
    pose proof (setUID_run k (Some l) serviceAccount st) as Hrun.
    rewrite (resolves_no_error _ _ _ Hres) in Hrun.
    destruct Hrun as (m & _ & ->). rewrite assign_uid_run. simpl. rewrite Hl.
    reflexivity.
Qed.

End Resolution.

(** ** More on [Mutate] *)

Section Mutator.

Context {PodFields SCFields : Type}.
Local Abbreviation state := (state PodFields SCFields).
Local Abbreviation PodValue := (PodValue PodFields SCFields).

Implicit Types (st : state) (k : cluster) (a : AdmissionRequest) (t : list event).

Lemma bind_ext {A B} (m : M PodFields SCFields A) (f g : A -> M PodFields SCFields B) st :
  (forall x st', f x st' = g x st') -> bind m f st = bind m g st.
Proof. intros H. unfold bind. destruct (m st) as [[x|] st']; [apply H | reflexivity]. Qed.

Lemma Mutate_bad_pod k (p : loc) (a : option AdmissionRequest) st :
  pod_value st p = None ->
  Mutate k (Some p) a st = (Panic, snd (Pod_DeepCopy (Some p) st)).
Proof.
  intros Hv. destruct (Pod_DeepCopy (Some p) st) as [[r|] st1] eqn:Hcopy.
  - destruct (Pod_DeepCopy_Ret_inv p st r st1 Hcopy) as (v & Hv'). congruence.
  - unfold Mutate. rewrite (bind_panic _ Hcopy). reflexivity.
Qed.

(** X9. A Pod returned by [Mutate] is made of new objects only: the Pod, its
    security context and the cell of its [RunAsUser], when it has them, are
    at locations that did not exist before the call. Nothing the caller
    held can reach them, and nothing in them is shared with the input Pod. *)
Theorem Mutate_returns_new_objects k (pod : option loc) (a : option AdmissionRequest)
    st (p' : loc) (err : option error) :
  let out := Mutate k pod a st in
  fst out = Ret (Some p', err) ->
  pods st !! p' = None
  /\ exists pd',
       pods (snd out) !! p' = Some pd'
       /\ match SecurityContext (Spec pd') with
          | None => True
          | Some l =>
              secctxs st !! l = None
              /\ exists sc',
                   secctxs (snd out) !! l = Some sc'
                   /\ match RunAsUser sc' with
                      | None => True
                      | Some i => int64s st !! i = None
                      end
          end.
Proof.
  intros out. unfold out.
  destruct (Mutate_outcome k pod a st) as
    [st' Hp | p v a' Hpod Ha Hv Hcase | p v a' e Hpod Ha Hv Hu Hname Herr
     | p v a' sf n Hpod Ha Hv Hsc Hname Hres]; cbn [fst snd];
    intros Hout; try discriminate Hout; injection Hout as <- _.
  - split; [apply lookup_ge_None; lia|].
    unfold copy_state, logged.
    destruct v as [[[[z|] sf]|] pf]; cbn [securityContext runAsUser pods secctxs int64s];
      eexists; (split; [apply lookup_snoc_new|]); cbn [Spec SecurityContext]; try exact I.
    + split; [apply lookup_ge_None; lia|]. eexists. split; [apply lookup_snoc_new|].
      cbn [RunAsUser]. apply lookup_ge_None. lia.
    + split; [apply lookup_ge_None; lia|]. eexists. split; [apply lookup_snoc_new|].
      exact I.
  - split; [apply lookup_ge_None; lia|].
    unfold applied_state. cbn [pods secctxs int64s].
    eexists. split; [apply lookup_snoc_new|]. cbn [Spec SecurityContext].
    split; [apply lookup_ge_None; lia|]. eexists. split; [apply lookup_snoc_new|].
    cbn [RunAsUser]. apply lookup_ge_None. lia.
Qed.

(** X10. Every error [Mutate] returns is the "failed to set RunAsUser"
    error wrapped around the error of [setUID], which is one of: client
    initialisation, ConfigMap fetch, no UID for the name, conversion of the
    UID. *)
Theorem Mutate_error_shape k (pod : option loc) (a : option AdmissionRequest) st
    (r : option loc) (e : error) :
  fst (Mutate k pod a st) = Ret (r, Some e) ->
  exists c, e = ErrSetRunAsUser c
    /\ ((exists c', c = ErrInitClient c') \/ (exists c', c = ErrSetUID c')
        \/ c = ErrNoUID \/ (exists c', c = ErrConvertUID c')).
Proof.
  destruct (Mutate_outcome k pod a st) as
    [st' Hp | p v a' Hpod Ha Hv Hcase | p v a' e' Hpod Ha Hv Hu Hname Herr
     | p v a' sf n Hpod Ha Hv Hsc Hname Hres]; cbn [fst];
    intros Hout; try discriminate Hout.
  injection Hout as _ <-. exists e'. split; [reflexivity|].
  apply (resolution_error_kinds k (extracted a')), Herr.
Qed.

(** Two requests from which the same name is extracted get the same answer
    and leave the same heap; only the log differs. *)
Lemma Mutate_same_name k (pod : option loc) a b st :
  extracted a = extracted b ->
  fst (Mutate k pod (Some a) st) = fst (Mutate k pod (Some b) st)
  /\ pods (snd (Mutate k pod (Some a) st)) = pods (snd (Mutate k pod (Some b) st))
  /\ secctxs (snd (Mutate k pod (Some a) st)) = secctxs (snd (Mutate k pod (Some b) st))
  /\ int64s (snd (Mutate k pod (Some a) st)) = int64s (snd (Mutate k pod (Some b) st)).
Proof.
  intros Heq. destruct pod as [p|]; [|repeat split].
  destruct (pod_value st p) as [v|] eqn:Hv;
    [|rewrite !(Mutate_bad_pod k p _ st Hv); repeat split].
  destruct (String.eqb_spec (extracted a) "") as [Hname | Hname].
  { rewrite (Mutate_noop_run k p a st v Hv (or_intror Hname)).
    rewrite Heq in Hname.
    rewrite (Mutate_noop_run k p b st v Hv (or_intror Hname)). repeat split. }
  destruct (runAsUser_of v) as [uid|] eqn:Hu.
  { assert (Hset : runAsUser_of v <> None) by (rewrite Hu; discriminate).
    rewrite !(Mutate_noop_run k p _ st v Hv (or_introl Hset)). repeat split. }
  assert (Hname' : extracted b <> "") by (rewrite <- Heq; exact Hname).
  destruct (resolution_error k (extracted a)) as [e|] eqn:Herr.
  - rewrite (Mutate_error_run k p a st v e Hv Hu Hname Herr).
    rewrite Heq in Herr.
    rewrite (Mutate_error_run k p b st v e Hv Hu Hname' Herr). repeat split.
  - pose proof (setUID_run k None (extracted a) st) as Hrun. rewrite Herr in Hrun.
    destruct Hrun as (n & Hres & _).
    assert (Hres' : resolves k (extracted b) n) by (rewrite <- Heq; exact Hres).
    destruct (securityContext v) as [[u sf]|] eqn:Hsc.
    + assert (u = None) as ->.
      { unfold runAsUser_of in Hu. rewrite Hsc in Hu. exact Hu. }
      rewrite (Mutate_applied_run k p a st v sf n Hv Hsc Hname Hres).
      rewrite (Mutate_applied_run k p b st v sf n Hv Hsc Hname' Hres'). repeat split.
    + rewrite (Mutate_panic_run k p a st v n Hv Hsc Hname Hres).
      rewrite (Mutate_panic_run k p b st v n Hv Hsc Hname' Hres'). repeat split.
Qed.

(** X11. The namespace of the requesting ServiceAccount plays no part:
    requests from [system:serviceaccount:<ns1>:<name>] and from
    [system:serviceaccount:<ns2>:<name>] get the same result, the same
    user id in particular, and leave the same heap. *)
Theorem Mutate_ignores_namespace k (pod : option loc) (ns1 ns2 name : string) st :
  CountByte ns1 colon = O ->
  CountByte ns2 colon = O ->
  CountByte name colon = O ->
  let a := mkAdmissionRequest (mkUserInfo (serviceaccount_username ns1 name)) in
  let b := mkAdmissionRequest (mkUserInfo (serviceaccount_username ns2 name)) in
  fst (Mutate k pod (Some a) st) = fst (Mutate k pod (Some b) st)
  /\ pods (snd (Mutate k pod (Some a) st)) = pods (snd (Mutate k pod (Some b) st))
  /\ secctxs (snd (Mutate k pod (Some a) st)) = secctxs (snd (Mutate k pod (Some b) st))
  /\ int64s (snd (Mutate k pod (Some a) st)) = int64s (snd (Mutate k pod (Some b) st)).
Proof.
  intros H1 H2 Hn a b. apply Mutate_same_name. unfold a, b.
  rewrite !extracted_serviceaccount by assumption. reflexivity.
Qed.

Lemma setUID_same_cluster k1 k2 (existing : option loc) (serviceAccount : string) st :
  InClusterConfig k1 = InClusterConfig k2 ->
  NewForConfig k1 = NewForConfig k2 ->
  ConfigMapsGet k1 namespace configMapName = ConfigMapsGet k2 namespace configMapName ->
  setUID k1 existing serviceAccount st = setUID k2 existing serviceAccount st.
Proof.
  intros H1 H2 H3. unfold setUID, initClient, getConfigMap, bind, emit, ret.
  rewrite H1, H2. simpl. rewrite H3. reflexivity.
Qed.

(** X12. Of the cluster, [Mutate] sees the in-cluster configuration, the
    client construction and the one ConfigMap [uid-mapping] of the
    namespace [default]: two clusters that answer these three alike give
    the same run, result, heap and log, whatever other ConfigMaps they
    hold, in the namespace of the ServiceAccount or elsewhere. *)
Theorem Mutate_reads_one_ConfigMap k1 k2 (pod : option loc)
    (a : option AdmissionRequest) st :
  InClusterConfig k1 = InClusterConfig k2 ->
  NewForConfig k1 = NewForConfig k2 ->
  ConfigMapsGet k1 "default" "uid-mapping" = ConfigMapsGet k2 "default" "uid-mapping" ->
  Mutate k1 pod a st = Mutate k2 pod a st.
Proof.
  intros H1 H2 H3. unfold Mutate.
  apply bind_ext; intros mpod st1. apply bind_ext; intros pd st2.
  apply bind_ext; intros serviceAccount st3. apply bind_ext; intros unset st4.
  destruct unset; [|reflexivity]. destruct (negb _); [|reflexivity].
  apply bind_ext; intros [] st5. apply bind_ext; intros mpd st6.
  unfold bind at 1 3.
  rewrite (setUID_same_cluster k1 k2 _ _ st6 H1 H2 H3). reflexivity.
Qed.

(** X13. [Mutate] dereferences both of its arguments before it tests
    anything: with a nil Pod it panics at once, and with a nil request it
    panics after the copy is made, also for a Pod that has a [RunAsUser]
    and would otherwise come back unchanged. In both cases the objects of
    the heap are left as they were. *)
Theorem Mutate_nil_arguments k st :
  (forall a : option AdmissionRequest, Mutate k None a st = (Panic, st))
  /\ (forall (p : loc) (v : PodValue), pod_value st p = Some v ->
        fst (Mutate k (Some p) None st) = Panic
        /\ pod_value (snd (Mutate k (Some p) None st)) p = Some v
        /\ trace (snd (Mutate k (Some p) None st)) = trace st).
Proof.
  split; [reflexivity|]. intros p v Hv.
  destruct (pod_value_inv st p v Hv) as (pd & Hpd & _ & _).
  unfold Mutate.
  rewrite (bind_run _ (Pod_DeepCopy_run st p v Hv)).
  assert (Hpd' : pods (copy_state st v) !! p = Some pd).
  { rewrite pods_copy_state. apply lookup_snoc_old, Hpd. }
  rewrite (bind_run _ (load_pod_run _ _ _ Hpd')).
  cbn [fst snd]. split; [reflexivity|]. split.
  - apply pod_value_preserved with (st := st); [apply preserved_copy_state | exact Hv].
  - apply trace_copy_state.
Qed.

(** X14. On the resolution path with the data fetched, for a Pod that has a
    security context without [RunAsUser], [Mutate] returns a Pod exactly
    when the extracted name is mapped to a decimal 64-bit signed integer;
    the Pod returned is then the original with [RunAsUser] set to that
    integer, negative or zero included, and the other fields kept. *)
Theorem Mutate_resolves_iff k data (p : loc) a st (v : PodValue) (sf : SCFields) :
  store_data k data ->
  extracted a <> "" ->
  pod_value st p = Some v ->
  securityContext v = Some (mkSCV None sf) ->
  let out := Mutate k (Some p) (Some a) st in
  ((exists p', fst out = Ret (Some p', None))
   <-> exists raw n, data !! extracted a = Some raw /\ decimal_int64 raw = Some n)
  /\ (forall raw n, data !! extracted a = Some raw -> decimal_int64 raw = Some n ->
        exists p', fst out = Ret (Some p', None)
          /\ pod_value (snd out) p'
             = Some (mkPV (Some (mkSCV (Some n) sf)) (pod_fields v))).
Proof.
  intros Hstore Hname Hv Hsc out.
  assert (Hu : runAsUser_of v = None) by (unfold runAsUser_of; rewrite Hsc; reflexivity).
  assert (Hok : forall raw n, data !! extracted a = Some raw -> decimal_int64 raw = Some n ->
            exists p', fst out = Ret (Some p', None)
              /\ pod_value (snd out) p'
                 = Some (mkPV (Some (mkSCV (Some n) sf)) (pod_fields v))).
  { intros raw n Hraw Hdec.
    pose proof (resolves_intro k data (extracted a) raw n Hstore Hraw Hdec) as Hres.
    unfold out. rewrite (Mutate_applied_run k p a st v sf n Hv Hsc Hname Hres).
    exists (length (pods st)). split; [reflexivity|]. apply pod_value_applied_state. }
  split; [|exact Hok]. split.
  - intros (p' & Hout). unfold out in Hout.
    destruct (Mutate_resolution_cases k p a st v Hv Hu Hname)
      as [(e & _ & Hrun) | [(n & _ & _ & Hrun) | (n & sf' & Hres & _ & _)]];
      try (rewrite Hrun in Hout; discriminate Hout).
    destruct Hres as (_ & _ & cm & raw & Hget & Hraw & _ & Hparse).
    destruct Hstore as (_ & _ & cm' & Hget' & <-).
    rewrite Hget in Hget'. injection Hget' as <-.
    exists raw, n. split; [exact Hraw|]. apply StrconvFacts.ParseInt_ok_inv, Hparse.
  - intros (raw & n & Hraw & Hdec). destruct (Hok raw n Hraw Hdec) as (p' & Hout & _).
    exists p'. exact Hout.
Qed.

End Mutator.

(** *** Instances of the properties above *)

Lemma build_bot_resolves : resolves (cluster_with build_bot_mapping) "build-bot" 1001.
Proof.
  split; [reflexivity|]. split; [reflexivity|].
  exists (mkConfigMap build_bot_mapping), "1001".
  split; [reflexivity|]. split; [reflexivity|]. split; [discriminate | reflexivity].
Defined.

Lemma setUID_error_leaves_heap_witness :
  let out := setUID (cluster_with ∅) (Some O) "ghost" pod_with_empty_context in
  fst out = Ret (None, Some ErrNoUID)
  /\ pods (snd out) = pods pod_with_empty_context
  /\ secctxs (snd out) = secctxs pod_with_empty_context
  /\ int64s (snd out) = int64s pod_with_empty_context.
Proof.
  cbv zeta. split; [reflexivity|].
  apply (setUID_error_leaves_heap (cluster_with ∅) (Some O) "ghost"
           pod_with_empty_context None ErrNoUID).
  reflexivity.
Defined.

Lemma setUID_assigns_in_place_witness :
  let out := setUID (cluster_with build_bot_mapping) (Some O) "build-bot" pod_with_uid in
  secctxs pod_with_uid !! O = Some (mkPodSecurityContext (Some O) tt)
  /\ fst out = Ret (Some O, None)
  /\ int64s (snd out) = [500; 1001]
  /\ secctxs (snd out) !! O = Some (mkPodSecurityContext (Some 1%nat) tt)
  /\ pod_value (snd out) O = Some (mkPV (Some (mkSCV (Some 1001) tt)) tt).
Proof.
  cbv zeta. split; [reflexivity|].
  destruct (setUID_assigns_in_place (cluster_with build_bot_mapping) O "build-bot" 1001
              pod_with_uid (mkPodSecurityContext (Some O) tt)
              build_bot_resolves eq_refl)
    as (Hret & _ & Hints & Hsc & _ & Hpods).
  split; [exact Hret|]. split; [exact Hints|]. split; [exact Hsc|].
  apply (Hpods O (mkPod (mkPodSpec (Some O)) tt)); reflexivity.
Defined.

Lemma setUID_succeeds_iff_witness :
  secctxs pod_with_empty_context !! O = Some (mkPodSecurityContext None tt)
  /\ (fst (setUID (cluster_with build_bot_mapping) (Some O) "build-bot"
             pod_with_empty_context) = Ret (Some O, None)
      <-> exists raw n,
            build_bot_mapping !! "build-bot" = Some raw /\ decimal_int64 raw = Some n).
Proof.
  split; [reflexivity|].
  apply (setUID_succeeds_iff (cluster_with build_bot_mapping) build_bot_mapping O
           "build-bot" pod_with_empty_context (mkPodSecurityContext None tt)).
  - apply cluster_with_store_data.
  - reflexivity.
Defined.

Lemma Mutate_returns_new_objects_witness :
  let out := Mutate (cluster_with build_bot_mapping) (Some O) (Some build_bot)
               pod_with_empty_context in
  fst out = Ret (Some 1%nat, None)
  /\ pods pod_with_empty_context !! 1%nat = None
  /\ exists pd',
       pods (snd out) !! 1%nat = Some pd'
       /\ match SecurityContext (Spec pd') with
          | None => True
          | Some l =>
              secctxs pod_with_empty_context !! l = None
              /\ exists sc',
                   secctxs (snd out) !! l = Some sc'
                   /\ match RunAsUser sc' with
                      | None => True
                      | Some i => int64s pod_with_empty_context !! i = None
                      end
          end.
Proof.
  cbv zeta.
  assert (Hout : fst (Mutate (cluster_with build_bot_mapping) (Some O) (Some build_bot)
                        pod_with_empty_context) = Ret (Some 1%nat, None))
    by (vm_compute; reflexivity).
  split; [exact Hout|].
  apply (Mutate_returns_new_objects (cluster_with build_bot_mapping) (Some O)
           (Some build_bot) pod_with_empty_context 1 None Hout).
Defined.

Lemma Mutate_error_shape_witness :
  let out := Mutate (cluster_with ∅) (Some O) (Some build_bot) pod_with_empty_context in
  fst out = Ret (None, Some (ErrSetRunAsUser ErrNoUID))
  /\ exists c, ErrSetRunAsUser ErrNoUID = ErrSetRunAsUser c
       /\ ((exists c', c = ErrInitClient c') \/ (exists c', c = ErrSetUID c')
           \/ c = ErrNoUID \/ (exists c', c = ErrConvertUID c')).
Proof.
  cbv zeta.
  assert (Hout : fst (Mutate (cluster_with ∅) (Some O) (Some build_bot)
                        pod_with_empty_context)
                 = Ret (None, Some (ErrSetRunAsUser ErrNoUID)))
    by (vm_compute; reflexivity).
  split; [exact Hout|].
  apply (Mutate_error_shape (cluster_with ∅) (Some O) (Some build_bot)
           pod_with_empty_context None (ErrSetRunAsUser ErrNoUID) Hout).
Defined.

Lemma Mutate_ignores_namespace_witness :
  let k := cluster_with build_bot_mapping in
  let a := request_from (serviceaccount_username "default" "build-bot") in
  let b := request_from (serviceaccount_username "kube-system" "build-bot") in
  CountByte "default" colon = O
  /\ CountByte "kube-system" colon = O
  /\ CountByte "build-bot" colon = O
  /\ fst (Mutate k (Some O) (Some a) pod_with_empty_context)
     = fst (Mutate k (Some O) (Some b) pod_with_empty_context).
Proof.
  cbv zeta. repeat (split; [reflexivity|]).
  apply (Mutate_ignores_namespace (cluster_with build_bot_mapping) (Some O)
           "default" "kube-system" "build-bot" pod_with_empty_context);
    reflexivity.
Defined.

Lemma Mutate_reads_one_ConfigMap_witness :
  let k2 := mkCluster None None (fun _ _ => inr (mkConfigMap build_bot_mapping)) in
  ConfigMapsGet (cluster_with build_bot_mapping) "kube-system" "uid-mapping"
  <> ConfigMapsGet k2 "kube-system" "uid-mapping"
  /\ Mutate (cluster_with build_bot_mapping) (Some O) (Some build_bot)
       pod_with_empty_context
     = Mutate k2 (Some O) (Some build_bot) pod_with_empty_context.
Proof.
  cbv zeta. split; [discriminate|].
  apply (Mutate_reads_one_ConfigMap (cluster_with build_bot_mapping)
           (mkCluster None None (fun _ _ => inr (mkConfigMap build_bot_mapping)))
           (Some O) (Some build_bot) pod_with_empty_context);
    reflexivity.
Defined.

Lemma Mutate_resolves_iff_witness :
  let out := Mutate (cluster_with build_bot_mapping) (Some O) (Some build_bot)
               pod_with_empty_context in
  extracted build_bot <> ""
  /\ pod_value pod_with_empty_context O = Some empty_context_value
  /\ ((exists p', fst out = Ret (Some p', None))
      <-> exists raw n,
            build_bot_mapping !! extracted build_bot = Some raw
            /\ decimal_int64 raw = Some n).
Proof.
  cbv zeta. split; [discriminate|]. split; [reflexivity|].
  apply (Mutate_resolves_iff (cluster_with build_bot_mapping) build_bot_mapping O
           build_bot pod_with_empty_context empty_context_value tt).
  - apply cluster_with_store_data.
  - discriminate.
  - reflexivity.
  - reflexivity.
Defined.

Lemma Mutate_nil_arguments_witness :
  pod_value pod_with_uid O = Some uid_value
  /\ fst (Mutate (cluster_with build_bot_mapping) (Some O) None pod_with_uid) = Panic.
Proof.
  split; [reflexivity|].
  destruct (Mutate_nil_arguments (cluster_with build_bot_mapping) pod_with_uid)
    as (_ & Hreq).
  destruct (Hreq O uid_value eq_refl) as (Hpanic & _). exact Hpanic.
Defined.
